(** * Luthier: a shallow embedding of the dynamic-instrumentation core

    The development follows the headers of the repository:
    - [Aql]        : include/luthier/HSA/AqlPacket.h
    - [LCOSymbol]  : include/luthier/HSA/LoadedCodeObjectSymbol.h
    - [Lifter]     : luthier/Tooling/CodeLifter.h (disassembly and lift caches)
    - [Loader]     : include/luthier/Tooling/ToolExecutableLoader.h
    - [Task]       : include/luthier/Tooling/InstrumentationTask.h
    - [COCache]    : luthier/HSA/LoadedCodeObjectCache.h

    Handles of the HSA runtime ([hsa_executable_t], [hsa_executable_symbol_t],
    [hsa_loaded_code_object_t]) are structs around one [uint64_t handle]; they
    are modelled by that integer.  Device addresses ([luthier::address_t]) and
    [size_t] are 64-bit unsigned integers, modelled in [Z] with the wrap-around
    written out. *)

From Stdlib Require Import ZArith List Bool Lia.
From stdpp Require Import gmap strings list fin_maps.

Local Open Scope Z_scope.

(** ** Machine integers *)

Definition wrap64 (x : Z) : Z := x mod 2 ^ 64.

(** ** Errors

    [llvm::Error] carries a type-erased [ErrorInfo]; the kinds below are the
    error taxonomy of the design, the message is the payload. *)

Inductive ErrorKind :=
| runtime_error | target_error | decode_error | lift_error | lowering_error
| codegen_error | loader_error | cache_miss | invariant_violation.

Record Error := mkError { ErrKind : ErrorKind; ErrMsg : string }.

(** [llvm::Expected<T>] *)
Inductive Expected (T : Type) :=
| Success (v : T)
| Failure (e : Error).
Arguments Success {T} v.
Arguments Failure {T} e.

Definition isSuccess {T} (r : Expected T) : bool :=
  match r with Success _ => true | Failure _ => false end.

(** * AQL packets (AqlPacket.h) *)

Module Aql.

(** The generic packet: a 16-bit header and 62 bytes of body. *)
Record AqlPacket := mkAqlPacket {
  Header : Z;               (* uint16_t *)
  UserData : list Z         (* uint8_t [62] *)
}.

(** What a typed accessor returns: [nullptr], or the address of the packet's
    contents reinterpreted at the accessor's struct type. *)
Inductive PacketPtr :=
| nullptr
| ContentsOf (P : AqlPacket).

Section Accessors.

(** Constants and enumerators of the HSA runtime header [hsa/hsa.h], which is
    not part of the repository. *)
Variables HSA_PACKET_HEADER_TYPE HSA_PACKET_HEADER_WIDTH_TYPE : Z.
Variables HSA_PACKET_TYPE_VENDOR_SPECIFIC HSA_PACKET_TYPE_KERNEL_DISPATCH
          HSA_PACKET_TYPE_BARRIER_AND HSA_PACKET_TYPE_BARRIER_OR
          HSA_PACKET_TYPE_AGENT_DISPATCH : Z.

Definition getPacketType (P : AqlPacket) : Z :=
  Z.land (Z.shiftr (Header P) HSA_PACKET_HEADER_TYPE)
         (Z.shiftl 1 HSA_PACKET_HEADER_WIDTH_TYPE - 1).

(** The const and the non-const overload of each accessor have the same body. *)
Definition asAMDVendor (P : AqlPacket) : PacketPtr :=
  if getPacketType P =? HSA_PACKET_TYPE_VENDOR_SPECIFIC
  then ContentsOf P else nullptr.

Definition asKernelDispatch (P : AqlPacket) : PacketPtr :=
  if getPacketType P =? HSA_PACKET_TYPE_KERNEL_DISPATCH
  then ContentsOf P else nullptr.

Definition asBarrierAnd (P : AqlPacket) : PacketPtr :=
  if getPacketType P =? HSA_PACKET_TYPE_BARRIER_AND
  then ContentsOf P else nullptr.

Definition asBarrierOr (P : AqlPacket) : PacketPtr :=
  if getPacketType P =? HSA_PACKET_TYPE_BARRIER_OR
  then ContentsOf P else nullptr.

Definition asAgentDispatch (P : AqlPacket) : PacketPtr :=
  if getPacketType P =? HSA_PACKET_TYPE_AGENT_DISPATCH
  then ContentsOf P else nullptr.

(** The five accessors with the packet type each one tests for. *)
Inductive Accessor :=
| AMDVendor | KernelDispatch | BarrierAnd | BarrierOr | AgentDispatch.

Definition accessorType (a : Accessor) : Z :=
  match a with
  | AMDVendor => HSA_PACKET_TYPE_VENDOR_SPECIFIC
  | KernelDispatch => HSA_PACKET_TYPE_KERNEL_DISPATCH
  | BarrierAnd => HSA_PACKET_TYPE_BARRIER_AND
  | BarrierOr => HSA_PACKET_TYPE_BARRIER_OR
  | AgentDispatch => HSA_PACKET_TYPE_AGENT_DISPATCH
  end.

Definition access (a : Accessor) : AqlPacket -> PacketPtr :=
  match a with
  | AMDVendor => asAMDVendor
  | KernelDispatch => asKernelDispatch
  | BarrierAnd => asBarrierAnd
  | BarrierOr => asBarrierOr
  | AgentDispatch => asAgentDispatch
  end.

End Accessors.

(** The values [hsa/hsa.h] gives the constants: the type field is the low
    eight bits of the header. *)
Definition hsa_getPacketType : AqlPacket -> Z := getPacketType 0 8.
Definition hsa_access : Accessor -> AqlPacket -> PacketPtr :=
  access 0 8 0 2 3 5 4.

End Aql.

(** * Loaded-code-object symbols (LoadedCodeObjectSymbol.h) *)

Module LCOSymbol.

Inductive SymbolKind := SK_KERNEL | SK_DEVICE_FUNCTION | SK_VARIABLE | SK_EXTERNAL.

Definition SymbolKind_value (k : SymbolKind) : Z :=
  match k with
  | SK_KERNEL => 0 | SK_DEVICE_FUNCTION => 1 | SK_VARIABLE => 2 | SK_EXTERNAL => 3
  end.

Definition SymbolKind_eqb (k1 k2 : SymbolKind) : bool :=
  SymbolKind_value k1 =? SymbolKind_value k2.

(** [llvm::object::DataRefImpl], the raw content of an [ELFSymbolRef]: a union
    of two 32-bit words [d.a], [d.b] and a pointer-sized [p] laid over them. *)
Record DataRefImpl := mkDataRefImpl { d_a : Z; d_b : Z }.

Definition Raw_p (r : DataRefImpl) : Z := d_a r + 2 ^ 32 * d_b r.

(** [SymbolRef::operator==] compares the two [DataRefImpl]s bytewise. *)
Definition DataRefImpl_eqb (r1 r2 : DataRefImpl) : bool :=
  (d_a r1 =? d_a r2) && (d_b r1 =? d_b r2).

Record LoadedCodeObjectSymbol := mkSymbol {
  BackingLCO : Z;                  (* hsa_loaded_code_object_t *)
  StorageELF : Z;                  (* AMDGCNObjectFile & *)
  Symbol : DataRefImpl;            (* llvm::object::ELFSymbolRef *)
  Kind : SymbolKind;
  ExecutableSymbol : option Z      (* std::optional<hsa_executable_symbol_t> *)
}.

Definition clone (S : LoadedCodeObjectSymbol) : LoadedCodeObjectSymbol :=
  mkSymbol (BackingLCO S) (StorageELF S) (Symbol S) (Kind S) (ExecutableSymbol S).

Definition getLoadedCodeObject (S : LoadedCodeObjectSymbol) : Z := BackingLCO S.

(** [operator==] *)
Definition eqb (A Other : LoadedCodeObjectSymbol) : bool :=
  let Out := DataRefImpl_eqb (Symbol A) (Symbol Other)
             && (BackingLCO A =? BackingLCO Other)
             && SymbolKind_eqb (Kind A) (Kind Other) in
  match ExecutableSymbol A with
  | Some h =>
      Out && match ExecutableSymbol Other with
             | Some h' => h =? h'
             | None => false
             end
  | None =>
      Out && negb (match ExecutableSymbol Other with
                   | Some _ => true
                   | None => false
                   end)
  end.

Section Hash.

(** [llvm::hash_combine], a function of the sequence of its arguments. *)
Variable hash_combine : list Z -> Z.

Definition hash (S : LoadedCodeObjectSymbol) : Z :=
  let Raw := Symbol S in
  hash_combine
    [BackingLCO S; Raw_p Raw; d_a Raw; d_b Raw; SymbolKind_value (Kind S);
     match ExecutableSymbol S with Some h => h | None => 0 end].

End Hash.

(** What [operator==] compares: every field but the [StorageELF] reference. *)
Definition key (S : LoadedCodeObjectSymbol) : Z * DataRefImpl * SymbolKind * option Z :=
  (BackingLCO S, Symbol S, Kind S, ExecutableSymbol S).

End LCOSymbol.

(** * The code lifter (CodeLifter.h) *)

Module Lifter.
Import LCOSymbol.

(** [llvm::MCInst] as the backend hands it out: an opcode and its operands. *)
Record MCInst := mkMCInst { Opcode : Z; Operands : list Z }.

(** [hsa::Instr]; the constructor takes [(Inst, Symbol, Address, Size)]. *)
Record Instr := mkInstr {
  Inst : MCInst;
  InstrSymbol : LoadedCodeObjectSymbol;
  LoadedDeviceAddress : Z;         (* address_t *)
  Size : Z                         (* size_t *)
}.

(** [llvm::ArrayRef<uint8_t>]: where the bytes start and the bytes. *)
Record ByteRange := mkByteRange { data : Z; bytes : list Z }.

(** [llvm::ArrayRef<hsa::Instr>] into a cached vector: the address of the
    vector object and, for reading, its elements. *)
Record InstrRef := mkInstrRef { vector : Z; elems : list Instr }.

(** The product of lifting; its content is built by the compiler backend. *)
Record LiftedRepresentation := mkLR {
  LRKernel : LoadedCodeObjectSymbol;
  LRFunctions : list (LoadedCodeObjectSymbol * list (list Z))
}.

(** The collaborators [disassemble] calls into: the code-object cache, the
    object-file and HSA helpers, the MC disassembler
    ([CodeLifter::disassemble(ISA, Code)]), the target manager, the backend's
    instruction table and the lifter's [evaluateBranch].  Their bodies are
    outside the repository's headers. *)
Record Services := mkServices {
  getAssociatedObjectFile : Z -> Expected Z;
  getObjectFileTargetTuple : Z -> Expected Z;
  isaFromLLVM : Z -> Expected Z;
  getLoadedSymbolContents : LoadedCodeObjectSymbol -> Expected ByteRange;
  convertToHostEquivalent : ByteRange -> Expected ByteRange;
  disassembleCode : Z -> list Z -> Expected (list MCInst * list Z);
  getTargetInfo : Z -> Expected Z;
  isBranch : Z -> Z -> bool;                      (* MII->get(Opcode).isBranch() *)
  evaluateBranch : MCInst -> Z -> Z -> option Z;  (* Some Target when it returns true *)
  getDeviceFunctionSymbols : Z -> Expected (list LoadedCodeObjectSymbol);
  buildLiftedRepresentation :
    LoadedCodeObjectSymbol -> list (LoadedCodeObjectSymbol * list Instr) ->
    Expected LiftedRepresentation
}.

(** The lifter's caches.  A [std::unique_ptr] held by a map is modelled by the
    address it holds together with the object there: the map is the only owner.
    [NextAlloc] is the next address [std::make_unique] hands out. *)
Record CodeLifter := mkCodeLifter {
  MCDisassembledSymbols : list (LoadedCodeObjectSymbol * (Z * list Instr));
  DirectBranchTargetLocations : gmap Z (gset Z);
  LiftedKernelSymbols : list (LoadedCodeObjectSymbol * (Z * LiftedRepresentation));
  NextAlloc : Z
}.

Definition emptyLifter : CodeLifter := mkCodeLifter [] ∅ [] 1.

(** ** An [unordered_map] keyed by symbols under [operator==] *)

Fixpoint find {V} (m : list (LoadedCodeObjectSymbol * V))
    (S : LoadedCodeObjectSymbol) : option V :=
  match m with
  | [] => None
  | (K, v) :: rest => if eqb K S then Some v else find rest S
  end.

Definition contains {V} (m : list (LoadedCodeObjectSymbol * V))
    (S : LoadedCodeObjectSymbol) : bool :=
  match find m S with Some _ => true | None => false end.

(** [emplace] inserts only when no equal key is present. *)
Definition emplace {V} (m : list (LoadedCodeObjectSymbol * V))
    (K : LoadedCodeObjectSymbol) (v : V) : list (LoadedCodeObjectSymbol * V) :=
  if contains m K then m else m ++ [(K, v)].

(** Writing through the reference to the mapped value of [S]. *)
Fixpoint update {V} (m : list (LoadedCodeObjectSymbol * V))
    (S : LoadedCodeObjectSymbol) (f : V -> V) : list (LoadedCodeObjectSymbol * V) :=
  match m with
  | [] => []
  | (K, v) :: rest =>
      if eqb K S then (K, f v) :: rest else (K, v) :: update rest S f
  end.

(** ** The state-and-error monad of the lifter's operations

    A failing step returns its error together with the state as it is at that
    point: this is what [LUTHIER_RETURN_ON_ERROR] does. *)

Definition M (A : Type) : Type := CodeLifter -> Expected A * CodeLifter.

Definition ret {A} (a : A) : M A := fun st => (Success a, st).

Definition bind {A B} (c : M A) (k : A -> M B) : M B :=
  fun st =>
    match c st with
    | (Success a, st') => k a st'
    | (Failure e, st') => (Failure e, st')
    end.

(** [auto X = f(...); LUTHIER_RETURN_ON_ERROR(X.takeError());] *)
Definition returnOnError {A} (r : Expected A) : M A := fun st => (r, st).

Definition modify (f : CodeLifter -> CodeLifter) : M unit :=
  fun st => (Success tt, f st).

Notation "x <-- c ;; k" := (bind c (fun x => k))
  (at level 100, c at next level, right associativity).
Notation "c ;;; k" := (bind c (fun _ => k))
  (at level 100, right associativity).

(** ** Direct-branch targets *)

(** Modelled from the spec: [CodeLifter::isAddressDirectBranchTarget] is only
    declared in the header; the Direct-Branch Target Set is a per-LCO set of
    addresses, and this is its membership test. *)
Definition isAddressDirectBranchTarget (st : CodeLifter) (LCO Address : Z) : bool :=
  match DirectBranchTargetLocations st !! LCO with
  | Some s => bool_decide (Address ∈ s)
  | None => false
  end.

(** Modelled from the spec: [CodeLifter::addDirectBranchTargetAddress] is only
    declared in the header; it records the target in the LCO's Direct-Branch
    Target Set. *)
Definition addDirectBranchTargetAddress (LCO Address : Z) (st : CodeLifter)
    : CodeLifter :=
  mkCodeLifter
    (MCDisassembledSymbols st)
    (<[LCO := {[Address]} ∪ default ∅ (DirectBranchTargetLocations st !! LCO)]>
       (DirectBranchTargetLocations st))
    (LiftedKernelSymbols st)
    (NextAlloc st).

(** ** Disassembly *)

(** [Out->push_back(Ins)], where [Out] refers to the vector mapped to [Sym]. *)
Definition push_back (Sym : LoadedCodeObjectSymbol) (Ins : Instr) (st : CodeLifter)
    : CodeLifter :=
  mkCodeLifter
    (update (MCDisassembledSymbols st) Sym (fun v => (v.1, v.2 ++ [Ins])))
    (DirectBranchTargetLocations st)
    (LiftedKernelSymbols st)
    (NextAlloc st).

(** [MCDisassembledSymbols.emplace(Symbol.clone(), std::make_unique<...>())] *)
Definition emplaceDisassembled (Sym : LoadedCodeObjectSymbol) (st : CodeLifter)
    : CodeLifter :=
  mkCodeLifter
    (emplace (MCDisassembledSymbols st) (clone Sym) (NextAlloc st, []))
    (DirectBranchTargetLocations st)
    (LiftedKernelSymbols st)
    (NextAlloc st + 1).

(** The body of the [for] loop over [Instructions] and [Addresses], entered
    with [PrevInstAddress] and the lifter's state. *)
Fixpoint disassembleLoop (env : Services) (TargetInfo : Z)
    (Sym : LoadedCodeObjectSymbol) (LCO BaseLoadedAddress : Z)
    (Instructions : list MCInst) (Addresses : list Z)
    (PrevInstAddress : Z) (st : CodeLifter) : CodeLifter :=
  match Instructions, Addresses with
  | Ins :: Instructions', A :: Addresses' =>
      let Address := wrap64 (A + BaseLoadedAddress) in
      let Size := wrap64 (Address - PrevInstAddress) in
      let st1 :=
        if isBranch env TargetInfo (Opcode Ins) then
          match evaluateBranch env Ins Address Size with
          | Some Target => addDirectBranchTargetAddress LCO Target st
          | None => st
          end
        else st in
      let st2 := push_back Sym (mkInstr Ins Sym Address Size) st1 in
      disassembleLoop env TargetInfo Sym LCO BaseLoadedAddress
        Instructions' Addresses' Address st2
  | _, _ => st
  end.

(** [return *MCDisassembledSymbols.find(&Symbol)->second;] *)
Definition findDisassembled (Sym : LoadedCodeObjectSymbol) : M InstrRef :=
  fun st =>
    match find (MCDisassembledSymbols st) Sym with
    | Some (a, l) => (Success (mkInstrRef a l), st)
    | None => (Failure (mkError invariant_violation "end() dereferenced"), st)
    end.

(** [CodeLifter::disassemble(const ST &Symbol)] *)
Definition disassemble (env : Services) (Sym : LoadedCodeObjectSymbol)
    : M InstrRef :=
  fun st =>
    if negb (contains (MCDisassembledSymbols st) Sym) then
      (let LCO := getLoadedCodeObject Sym in
       ObjFile <-- returnOnError (getAssociatedObjectFile env LCO) ;;
       LLVMIsa <-- returnOnError (getObjectFileTargetTuple env ObjFile) ;;
       ISA <-- returnOnError (isaFromLLVM env LLVMIsa) ;;
       MachineCodeOnDevice <-- returnOnError (getLoadedSymbolContents env Sym) ;;
       MachineCodeOnHost <--
         returnOnError (convertToHostEquivalent env MachineCodeOnDevice) ;;
       InstructionsAndAddresses <--
         returnOnError (disassembleCode env ISA (bytes MachineCodeOnHost)) ;;
       modify (emplaceDisassembled Sym) ;;;
       TargetInfo <-- returnOnError (getTargetInfo env ISA) ;;
       let BaseLoadedAddress := data MachineCodeOnDevice in
       modify
         (disassembleLoop env TargetInfo Sym LCO BaseLoadedAddress
            InstructionsAndAddresses.1 InstructionsAndAddresses.2
            BaseLoadedAddress) ;;;
       findDisassembled Sym) st
    else findDisassembled Sym st.

(** The records the loop pushes for what the disassembler returned; the
    loop's computation of [Address] and [Size], without the state
    ([disassembleLoop_spec] ties the two together). *)
Fixpoint loopRecords (Sym : LoadedCodeObjectSymbol) (BaseLoadedAddress : Z)
    (Instructions : list MCInst) (Addresses : list Z) (PrevInstAddress : Z)
    : list Instr :=
  match Instructions, Addresses with
  | Ins :: Instructions', A :: Addresses' =>
      let Address := wrap64 (A + BaseLoadedAddress) in
      let Size := wrap64 (Address - PrevInstAddress) in
      mkInstr Ins Sym Address Size
        :: loopRecords Sym BaseLoadedAddress Instructions' Addresses' Address
  | _, _ => []
  end.

(** The target the loop records for one instruction, if any: the two tests of
    the loop body, on the arguments the record keeps. *)
Definition branchTarget (env : Services) (TargetInfo : Z) (rec : Instr)
    : option Z :=
  if isBranch env TargetInfo (Opcode (Inst rec)) then
    evaluateBranch env (Inst rec) (LoadedDeviceAddress rec) (Size rec)
  else None.

(** [st'] has every cache entry of [st], in place, and possibly more. *)
Definition extends (st st' : CodeLifter) : Prop :=
  (exists l, MCDisassembledSymbols st' = MCDisassembledSymbols st ++ l)
  /\ (exists l, LiftedKernelSymbols st' = LiftedKernelSymbols st ++ l).

(** The target description [disassemble] obtains for [Sym]: the chain of its
    first three queries and of the target manager's. *)
Definition targetInfoOf (env : Services) (Sym : LoadedCodeObjectSymbol)
    : Expected Z :=
  match getAssociatedObjectFile env (getLoadedCodeObject Sym) with
  | Failure e => Failure e
  | Success ObjFile =>
      match getObjectFileTargetTuple env ObjFile with
      | Failure e => Failure e
      | Success LLVMIsa =>
          match isaFromLLVM env LLVMIsa with
          | Failure e => Failure e
          | Success ISA => getTargetInfo env ISA
          end
      end
  end.

(** ** Lifting *)

(** The Instruction Records of each function of [funcs], by [disassemble]. *)
Fixpoint disassembleAll (env : Services) (funcs : list LoadedCodeObjectSymbol)
    : M (list (LoadedCodeObjectSymbol * list Instr)) :=
  match funcs with
  | [] => ret []
  | F :: rest =>
      r <-- disassemble env F ;;
      rs <-- disassembleAll env rest ;;
      ret ((F, elems r) :: rs)
  end.

(** Step 6 of lifting: the new representation goes into the lift cache, in a
    freshly allocated object, and a reference to it is returned. *)
Definition insertLifted (K : LoadedCodeObjectSymbol) (LR : LiftedRepresentation)
    : M (Z * LiftedRepresentation) :=
  fun st =>
    let a := NextAlloc st in
    let m := emplace (LiftedKernelSymbols st) (clone K) (a, LR) in
    (match find m K with
     | Some r => Success r
     | None => Failure (mkError invariant_violation "end() dereferenced")
     end,
     mkCodeLifter (MCDisassembledSymbols st) (DirectBranchTargetLocations st)
       m (a + 1)).

(** Modelled from the spec: [CodeLifter::lift] is only declared in the header.
    The representation is cached on the first invocation: a kernel found in the
    lift cache is answered from it; otherwise the kernel and every device
    function of its LCO are disassembled, the backend builds the
    representation from their Instruction Records, and the result is inserted
    into the lift cache. *)
Definition lift (env : Services) (K : LoadedCodeObjectSymbol)
    : M (Z * LiftedRepresentation) :=
  fun st =>
    match find (LiftedKernelSymbols st) K with
    | Some r => (Success r, st)
    | None =>
        (DeviceFunctions <--
           returnOnError (getDeviceFunctionSymbols env (getLoadedCodeObject K)) ;;
         Records <-- disassembleAll env (K :: DeviceFunctions) ;;
         LR <-- returnOnError (buildLiftedRepresentation env K Records) ;;
         insertLifted K LR) st
    end.

(** ** Calls of the inspection API, for statements about call sequences *)

Inductive Call :=
| CallDisassemble (Sym : LoadedCodeObjectSymbol)
| CallLift (K : LoadedCodeObjectSymbol).

(** What a call hands back: a reference into one of the two caches. *)
Inductive Reference :=
| InstrsAt (r : InstrRef)
| LiftedAt (a : Z) (LR : LiftedRepresentation).

Definition exec (env : Services) (c : Call) : M Reference :=
  match c with
  | CallDisassemble Sym => r <-- disassemble env Sym ;; ret (InstrsAt r)
  | CallLift K => r <-- lift env K ;; ret (LiftedAt r.1 r.2)
  end.

(** A sequence of calls, each under its own behaviour of the collaborators;
    results are dropped, the state is threaded. *)
Fixpoint run (calls : list (Services * Call)) (st : CodeLifter) : CodeLifter :=
  match calls with
  | [] => st
  | (env, c) :: rest => run rest (exec env c st).2
  end.

(** ** Invalidation *)

Definition belongsTo (LCOs : list Z) (S : LoadedCodeObjectSymbol) : bool :=
  bool_decide (BackingLCO S ∈ LCOs).

(** Modelled from the spec: [CodeLifter::invalidateCachedExecutableItems] is
    only declared in the header.  Both caches drop the entries of the
    executable's symbols, and the per-LCO branch-target sets of its loaded code
    objects go with them.  [LCOs] are the loaded code objects of the executable
    being destroyed. *)
Definition invalidateCachedExecutableItems (LCOs : list Z) (st : CodeLifter)
    : CodeLifter :=
  mkCodeLifter
    (List.filter (fun e => negb (belongsTo LCOs e.1)) (MCDisassembledSymbols st))
    (foldr delete (DirectBranchTargetLocations st) LCOs)
    (List.filter (fun e => negb (belongsTo LCOs e.1)) (LiftedKernelSymbols st))
    (NextAlloc st).

End Lifter.

(** * The code-object cache (LoadedCodeObjectCache.h) *)

Module COCache.

Record LCOCacheEntry := mkLCOCacheEntry {
  CodeObject : list Z;             (* the private copy of the ELF bytes *)
  ParsedELF : Z                    (* the parsed AMDGCNObjectFile *)
}.

Record LoadedCodeObjectCache := mkCache {
  LCOCache : gmap Z LCOCacheEntry
}.

(** The cache-miss error of the design's taxonomy. *)
Definition cacheMiss : Error :=
  mkError cache_miss "loaded code object is not cached".

(** Modelled from the spec: the bodies of the cache's queries are not in the
    header.  [isCached] tells whether the LCO has an entry. *)
Definition isCached (C : LoadedCodeObjectCache) (LCO : Z) : bool :=
  match LCOCache C !! LCO with Some _ => true | None => false end.

(** Modelled from the spec: a query about an LCO without an entry fails with
    a cache-miss error. *)
Definition getAssociatedCodeObject (C : LoadedCodeObjectCache) (LCO : Z)
    : Expected (list Z) :=
  match LCOCache C !! LCO with
  | Some e => Success (CodeObject e)
  | None => Failure cacheMiss
  end.

(** Modelled from the spec: as [getAssociatedCodeObject], for the parsed ELF. *)
Definition getAssociatedObjectFile (C : LoadedCodeObjectCache) (LCO : Z)
    : Expected Z :=
  match LCOCache C !! LCO with
  | Some e => Success (ParsedELF e)
  | None => Failure cacheMiss
  end.

(** Modelled from the spec: [hsaExecutableDestroyWrapper] is only declared in
    the header; it invalidates all LCOs belonging to the executable.  [LCOs]
    are the loaded code objects the runtime reports for it. *)
Definition hsaExecutableDestroyWrapper (LCOs : list Z) (C : LoadedCodeObjectCache)
    : LoadedCodeObjectCache :=
  mkCache (foldr delete (LCOCache C) LCOs).

(** The two components the destroy callback reaches. *)
Record Core := mkCore {
  CodeObjects : LoadedCodeObjectCache;
  TheLifter : Lifter.CodeLifter
}.

(** Modelled from the spec: the executable-destroy callback for [Exec];
    [loadedCodeObjectsOf] is the runtime's enumeration of an executable's
    loaded code objects. *)
Definition executableDestroyCallback (loadedCodeObjectsOf : Z -> list Z)
    (Exec : Z) (s : Core) : Core :=
  let LCOs := loadedCodeObjectsOf Exec in
  mkCore (hsaExecutableDestroyWrapper LCOs (CodeObjects s))
         (Lifter.invalidateCachedExecutableItems LCOs (TheLifter s)).

(** Modelled from the spec: the collaborators of the lifter when its
    code-object queries (the parsed ELF, the symbols of an LCO) are served by
    this cache; each fails with a cache-miss error for an LCO without entry. *)
Definition servedBy (C : LoadedCodeObjectCache) (env : Lifter.Services)
    : Lifter.Services :=
  Lifter.mkServices
    (getAssociatedObjectFile C)
    (Lifter.getObjectFileTargetTuple env)
    (Lifter.isaFromLLVM env)
    (Lifter.getLoadedSymbolContents env)
    (Lifter.convertToHostEquivalent env)
    (Lifter.disassembleCode env)
    (Lifter.getTargetInfo env)
    (Lifter.isBranch env)
    (Lifter.evaluateBranch env)
    (fun LCO =>
       if isCached C LCO then Lifter.getDeviceFunctionSymbols env LCO
       else Failure cacheMiss)
    (Lifter.buildLiftedRepresentation env).

End COCache.

(** * The tool executable loader (ToolExecutableLoader.h) *)

Module Loader.

(** The part of [amdgpu::hsamd::Kernel::Metadata] the dispatch path reads. *)
Record Metadata := mkMetadata { PrivateSegmentFixedSize : Z }.

Record ToolExecutableLoader := mkLoader {
  InstrumentedKernelMetadata : gmap Z Metadata;
  OriginalExecutablesWithKernelsInstrumented : gmap Z (gset Z);
  OriginalToInstrumentedKernelsMap : gmap Z (gmap string Z)
}.

Definition emptyLoader : ToolExecutableLoader := mkLoader ∅ ∅ ∅.

(** [llvm::StringMap::insert]: the pair goes in only when the key is absent. *)
Definition StringMap_insert (m : gmap string Z) (k : string) (v : Z)
    : gmap string Z :=
  match m !! k with
  | Some _ => m
  | None => <[k := v]> m
  end.

(** [ToolExecutableLoader::insertInstrumentedKernelIntoMap] *)
Definition insertInstrumentedKernelIntoMap
    (OriginalExecutable OriginalKernel : Z) (Preset : string)
    (InstrumentedExecutable InstrumentedKernel : Z)
    (L : ToolExecutableLoader) : ToolExecutableLoader :=
  let Kernels :=
    match OriginalToInstrumentedKernelsMap L !! OriginalKernel with
    | Some _ => OriginalToInstrumentedKernelsMap L
    | None => <[OriginalKernel := ∅]> (OriginalToInstrumentedKernelsMap L)
    end in
  let Kernels' :=
    <[OriginalKernel :=
        StringMap_insert (default ∅ (Kernels !! OriginalKernel))
          Preset InstrumentedKernel]> Kernels in
  let Execs :=
    match OriginalExecutablesWithKernelsInstrumented L !! OriginalExecutable with
    | Some _ => OriginalExecutablesWithKernelsInstrumented L
    | None =>
        <[OriginalExecutable := ∅]> (OriginalExecutablesWithKernelsInstrumented L)
    end in
  let Execs' :=
    <[OriginalExecutable :=
        {[InstrumentedExecutable]} ∪ default ∅ (Execs !! OriginalExecutable)]>
      Execs in
  mkLoader (InstrumentedKernelMetadata L) Execs' Kernels'.

(** One registration attempt: the arguments of
    [insertInstrumentedKernelIntoMap]. *)
Record Registration := mkRegistration {
  OriginalExecutable : Z;
  OriginalKernel : Z;
  Preset : string;
  InstrumentedExecutable : Z;
  InstrumentedKernel : Z
}.

Definition register (r : Registration) : ToolExecutableLoader -> ToolExecutableLoader :=
  insertInstrumentedKernelIntoMap (OriginalExecutable r) (OriginalKernel r)
    (Preset r) (InstrumentedExecutable r) (InstrumentedKernel r).

Definition registerAll (rs : list Registration) (L : ToolExecutableLoader)
    : ToolExecutableLoader :=
  fold_left (fun L r => register r L) rs L.

(** The entry of the preset map for [(OriginalKernel, Preset)]. *)
Definition registered (L : ToolExecutableLoader) (OriginalKernel : Z)
    (Preset : string) : option Z :=
  match OriginalToInstrumentedKernelsMap L !! OriginalKernel with
  | Some m => m !! Preset
  | None => None
  end.

(** Modelled from the spec: [ToolExecutableLoader::getInstrumentedKernel] is
    only declared in the header; it queries the preset map and returns the
    instrumented kernel's symbol with its metadata. *)
Definition getInstrumentedKernel (L : ToolExecutableLoader)
    (OriginalKernel : Z) (Preset : string) : Expected (Z * Metadata) :=
  match registered L OriginalKernel Preset with
  | Some IK =>
      match InstrumentedKernelMetadata L !! IK with
      | Some MD => Success (IK, MD)
      | None => Failure (mkError loader_error "no metadata for the instrumented kernel")
      end
  | None => Failure (mkError loader_error "kernel is not instrumented under the preset")
  end.

(** Modelled from the spec: [ToolExecutableLoader::isKernelInstrumented] is
    only declared in the header; it queries the preset map. *)
Definition isKernelInstrumented (L : ToolExecutableLoader)
    (OriginalKernel : Z) (Preset : string) : bool :=
  match registered L OriginalKernel Preset with Some _ => true | None => false end.

(** [hsa_kernel_dispatch_packet_t], field by field, as [hsa/hsa.h] lays it out. *)
Record hsa_kernel_dispatch_packet_t := mkPacket {
  header : Z;
  setup : Z;
  workgroup_size_x : Z;
  workgroup_size_y : Z;
  workgroup_size_z : Z;
  reserved0 : Z;
  grid_size_x : Z;
  grid_size_y : Z;
  grid_size_z : Z;
  private_segment_size : Z;
  group_segment_size : Z;
  kernel_object : Z;
  kernarg_address : Z;
  reserved2 : Z;
  completion_signal : Z
}.

Definition rewritePacket (P : hsa_kernel_dispatch_packet_t)
    (InstrumentedKD : Z) (MD : Metadata) : hsa_kernel_dispatch_packet_t :=
  mkPacket (header P) (setup P)
    (workgroup_size_x P) (workgroup_size_y P) (workgroup_size_z P) (reserved0 P)
    (grid_size_x P) (grid_size_y P) (grid_size_z P)
    (if private_segment_size P <? PrivateSegmentFixedSize MD
     then PrivateSegmentFixedSize MD else private_segment_size P)
    (group_segment_size P)
    InstrumentedKD
    (kernarg_address P) (reserved2 P) (completion_signal P).

Section Dispatch.

(** The runtime's relation between kernel symbols and the addresses of their
    kernel descriptors, the value a packet's [kernel_object] holds. *)
Variable kernelOfDescriptor : Z -> option Z.
Variable descriptorOf : Z -> Z.

(** Modelled from the spec: [luthier::overrideWithInstrumented] is only
    declared in luthier.h.  The kernel is the one the packet's [kernel_object]
    designates; in place, the kernel-object pointer is rewritten to the
    instrumented kernel-descriptor and [private_segment_size] is widened to
    the instrumented metadata value if that is larger; a failure leaves the
    packet as it is. *)
Definition overrideWithInstrumented (L : ToolExecutableLoader)
    (Packet : hsa_kernel_dispatch_packet_t) (Preset : string)
    : Expected unit * hsa_kernel_dispatch_packet_t :=
  match kernelOfDescriptor (kernel_object Packet) with
  | None =>
      (Failure (mkError runtime_error "no kernel at the packet's kernel object"),
       Packet)
  | Some K =>
      match getInstrumentedKernel L K Preset with
      | Failure e => (Failure e, Packet)
      | Success (IK, MD) => (Success tt, rewritePacket Packet (descriptorOf IK) MD)
      end
  end.

End Dispatch.

End Loader.

(** * Instrumentation tasks (InstrumentationTask.h) *)

Module Task.

(** [std::variant<llvm::Constant *, llvm::MCRegister>] *)
Inductive HookArg :=
| ConstantArg (c : Z)
| RegisterArg (r : Z).

Record hook_invocation_descriptor := mkDescriptor {
  HookName : string;
  Args : list HookArg
}.

(** [hook_insertion_tasks]: keyed by [llvm::MachineInstr *]. *)
Abbreviation hook_insertion_tasks := (gmap Z (list hook_invocation_descriptor)).

Record InstrumentationTask := mkTask {
  LR : Lifter.LiftedRepresentation;
  IM : gmap Z string;              (* the module's HookHandleMap *)
  HookInsertionTasks : hook_insertion_tasks
}.

(** [explicit InstrumentationTask(LiftedRepresentation &LR)]: the queue starts
    empty. *)
Definition newTask (LR : Lifter.LiftedRepresentation) (IM : gmap Z string)
    : InstrumentationTask :=
  mkTask LR IM ∅.

Definition getHookInsertionTasks (T : InstrumentationTask) : hook_insertion_tasks :=
  HookInsertionTasks T.

(** The machine instructions of a representation, function by function and
    block by block. *)
Definition instructionsOf (LR : Lifter.LiftedRepresentation) : list Z :=
  concat (concat (map snd (Lifter.LRFunctions LR))).

Definition queueOf (tasks : hook_insertion_tasks) (MI : Z)
    : list hook_invocation_descriptor :=
  default [] (tasks !! MI).

(** Modelled from the spec: [InstrumentationTask::insertHookBefore] is only
    declared in the header.  It validates that [MI] belongs to the task's
    representation, resolves the hook handle through the instrumentation module
    to a hook name, appends a descriptor to the queue for [MI], and returns. *)
Definition insertHookBefore (T : InstrumentationTask) (MI Hook : Z)
    (Args : list HookArg) : Expected unit * InstrumentationTask :=
  if negb (bool_decide (MI ∈ instructionsOf (LR T))) then
    (Failure (mkError invariant_violation "instruction is not in the representation"), T)
  else
    match IM T !! Hook with
    | None => (Failure (mkError lowering_error "unknown hook handle"), T)
    | Some Name =>
        (Success tt,
         mkTask (LR T) (IM T)
           (<[MI := queueOf (HookInsertionTasks T) MI ++ [mkDescriptor Name Args]]>
              (HookInsertionTasks T)))
    end.

(** The mutating operations a task offers: only this one. *)
Inductive TaskOperation :=
| InsertHookBefore (MI Hook : Z) (Args : list HookArg).

Definition apply (op : TaskOperation) (T : InstrumentationTask)
    : Expected unit * InstrumentationTask :=
  match op with
  | InsertHookBefore MI Hook Args => insertHookBefore T MI Hook Args
  end.

(** What a block holds once hook calls are materialised. *)
Inductive Item :=
| HookCall (d : hook_invocation_descriptor)
| Original (MI : Z).

(** The calls queued for [MI], in queue order, and then [MI] itself. *)
Definition payloadThenTarget (tasks : hook_insertion_tasks) (MI : Z) : list Item :=
  map HookCall (queueOf tasks MI) ++ [Original MI].

(** A call site for [d] is created immediately before the target [MI]. *)
Fixpoint insertCallBefore (d : hook_invocation_descriptor) (MI : Z)
    (block : list Item) : list Item :=
  match block with
  | [] => []
  | Original MI' :: rest =>
      if MI' =? MI then HookCall d :: Original MI' :: rest
      else Original MI' :: insertCallBefore d MI rest
  | HookCall d' :: rest => HookCall d' :: insertCallBefore d MI rest
  end.

(** The queue of one target, taken in order. *)
Definition materialiseQueue (MI : Z) (queue : list hook_invocation_descriptor)
    (block : list Item) : list Item :=
  fold_left (fun b d => insertCallBefore d MI b) queue block.

(** Modelled from the spec: hook materialisation in the code generator, whose
    body is not in the header.  For every queued insertion a call site is
    created immediately before the target instruction; the targets are taken
    in the order of the block. *)
Definition materialise (tasks : hook_insertion_tasks) (block : list Z) : list Item :=
  fold_left (fun b MI => materialiseQueue MI (queueOf tasks MI) b)
    block (map Original block).

End Task.

(** * A concrete kernel: [s_mov_b32 s0, 0x10; s_branch .L; .L: s_endpgm] *)

Module Scenario.
Import LCOSymbol Lifter.

Definition K0 : LoadedCodeObjectSymbol :=
  mkSymbol 7 100 (mkDataRefImpl 3 1) SK_KERNEL (Some 42).

(** Opcodes, as the scenario's instruction table numbers them. *)
Definition S_MOV_B32 : Z := 1.
Definition S_BRANCH : Z := 2.
Definition S_ENDPGM : Z := 3.

(** Twelve bytes of machine code: three four-byte instructions. *)
Definition code : list Z := [144; 0; 128; 190; 0; 0; 130; 191; 0; 0; 129; 191].

(** The collaborators: every query succeeds, the decoder finds the three
    instructions at offsets 0, 4 and 8, and a branch with immediate [imm] at
    [Addr] goes to [Addr + 4 + 4 * imm]. *)
Definition services : Services :=
  mkServices
    (fun _ => Success 100)
    (fun _ => Success 1)
    (fun _ => Success 9)
    (fun _ => Success (mkByteRange 4096 code))
    (fun r => Success (mkByteRange 8192 (bytes r)))
    (fun _ _ =>
       Success ([mkMCInst S_MOV_B32 [0; 16]; mkMCInst S_BRANCH [0];
                 mkMCInst S_ENDPGM []],
                [0; 4; 8]))
    (fun _ => Success 5)
    (fun _ op => op =? S_BRANCH)
    (fun Ins Addr _ =>
       match Operands Ins with
       | [imm] => Some (wrap64 (Addr + 4 + 4 * imm))
       | _ => None
       end)
    (fun _ => Success [])
    (fun K Records => Success (mkLR K [(K, [[1; 2]; [3]])])).

(** The same collaborators, except that the target manager has no description
    for the ISA. *)
Definition servicesWithoutTarget : Services :=
  mkServices
    (getAssociatedObjectFile services)
    (getObjectFileTargetTuple services)
    (isaFromLLVM services)
    (getLoadedSymbolContents services)
    (convertToHostEquivalent services)
    (disassembleCode services)
    (fun _ => Failure (mkError target_error "no target description for the ISA"))
    (isBranch services)
    (evaluateBranch services)
    (getDeviceFunctionSymbols services)
    (buildLiftedRepresentation services).

(** ** A dispatch of the kernel through the loader *)

Import Loader.

(** Kernel symbol [h] has its descriptor at address [1000 + h]. *)
Definition descriptorOf (h : Z) : Z := 1000 + h.
Definition kernelOfDescriptor (a : Z) : option Z :=
  if 1000 <? a then Some (a - 1000) else None.

(** Metadata is on file for the instrumented kernels 2 and 3. *)
Definition loaderWithMetadata : ToolExecutableLoader :=
  mkLoader (<[2 := mkMetadata 64]> (<[3 := mkMetadata 128]> ∅)) ∅ ∅.

(** Kernel 1 of executable 10 is instrumented under preset p as kernel 2 of
    executable 11. *)
Definition loader : ToolExecutableLoader :=
  register (mkRegistration 10 1 "p" 11 2) loaderWithMetadata.



(** On top of [loader], kernel 2 is itself instrumented under p, as kernel 3. *)
Definition chainedLoader : ToolExecutableLoader :=
  register (mkRegistration 11 2 "p" 12 3) loader.

(** A dispatch of kernel 1 with 16 bytes of private segment. *)
Definition packet : hsa_kernel_dispatch_packet_t :=
  mkPacket 2 1 64 1 1 0 256 1 1 16 0 (descriptorOf 1) 8192 0 0.

(** ** The core with the kernel's code object cached and the kernel lifted *)

(** Executable 10 holds the loaded code object 7 of [K0]. *)
Definition loadedCodeObjectsOf (Exec : Z) : list Z :=
  if Exec =? 10 then [7] else [].

Definition core : COCache.Core :=
  COCache.mkCore
    (COCache.mkCache (<[7 := COCache.mkLCOCacheEntry code 100]> ∅))
    (lift services K0 emptyLifter).2.

(** ** A task over the kernel's representation *)

Definition representation : LiftedRepresentation := mkLR K0 [(K0, [[1; 2]; [3]])].

(** Two hook handles, at host addresses 500 and 501. *)
Definition task : Task.InstrumentationTask :=
  Task.newTask representation
    (<[500 := "count_instruction"%string]> (<[501 := "trace_branch"%string]> ∅)).

(** The task after three insertions: two hooks before the branch
    (instruction 2) and, in between, one before [s_endpgm] (instruction 3). *)
Definition taskWithHooks : Task.InstrumentationTask :=
  let T1 := (Task.insertHookBefore task 2 500 [Task.ConstantArg 1]).2 in
  let T2 := (Task.insertHookBefore T1 3 501 []).2 in
  (Task.insertHookBefore T2 2 501 [Task.RegisterArg 7]).2.

End Scenario.

(** * Function objects over symbols (LoadedCodeObjectSymbol.h) *)

Module SymbolFunctors.
Import LCOSymbol.

(** What [LoadedCodeObjectSymbolEqualTo] and [LoadedCodeObjectSymbolHash] are
    applied to: a pointer (unique, shared or raw; null or pointing at a
    symbol) or a reference.  The overloads for the three pointer kinds have
    the same bodies. *)
Inductive Operand :=
| ByPointer (p : option LoadedCodeObjectSymbol)
| ByReference (s : LoadedCodeObjectSymbol).

(** [LoadedCodeObjectSymbolEqualTo::operator()].  Between two pointers:
    [if (Lhs && Rhs) return *Lhs == *Rhs; else return Lhs.get() == Rhs.get();]
    where the pointer comparison is reached with at least one null pointer. *)
Definition EqualTo (Lhs Rhs : Operand) : bool :=
  match Lhs, Rhs with
  | ByPointer (Some l), ByPointer (Some r) => eqb l r
  | ByPointer None, ByPointer None => true
  | ByPointer _, ByPointer _ => false
  | ByPointer (Some l), ByReference r => eqb l r      (* Lhs && *Lhs == Rhs *)
  | ByPointer None, ByReference _ => false
  | ByReference l, ByPointer (Some r) => eqb l r      (* Rhs && Lhs == *Rhs *)
  | ByReference _, ByPointer None => false
  | ByReference l, ByReference r => eqb l r
  end.

Section Hash.

Variable hash_combine : list Z -> Z.
(** [llvm::hash_value] of the null pointer. *)
Variable hash_of_nullptr : Z.

(** [LoadedCodeObjectSymbolHash::operator()] *)
Definition Hash (Symbol : Operand) : Z :=
  match Symbol with
  | ByPointer (Some s) => hash hash_combine s
  | ByPointer None => hash_of_nullptr
  | ByReference s => hash hash_combine s
  end.

End Hash.

(** The constructors of the subclasses: each fixes the kind, and the device
    function has no executable symbol. *)
Definition LoadedCodeObjectDeviceFunction (LCO StorageElf : Z)
    (FuncSymbol : DataRefImpl) : LoadedCodeObjectSymbol :=
  mkSymbol LCO StorageElf FuncSymbol SK_DEVICE_FUNCTION None.

Definition LoadedCodeObjectVariable (LCO StorageElf : Z)
    (VarSymbol : DataRefImpl) (ExecutableSymbol : option Z)
    : LoadedCodeObjectSymbol :=
  mkSymbol LCO StorageElf VarSymbol SK_VARIABLE ExecutableSymbol.

Definition LoadedCodeObjectExternSymbol (LCO StorageElf : Z)
    (ExternSymbol : DataRefImpl) (ExecutableSymbol : Z)
    : LoadedCodeObjectSymbol :=
  mkSymbol LCO StorageElf ExternSymbol SK_EXTERNAL (Some ExecutableSymbol).

Definition getType (S : LoadedCodeObjectSymbol) : SymbolKind := Kind S.

(** The [classof] of each subclass (LLVM RTTI). *)
Definition classofDeviceFunction (S : LoadedCodeObjectSymbol) : bool :=
  SymbolKind_eqb (getType S) SK_DEVICE_FUNCTION.
Definition classofVariable (S : LoadedCodeObjectSymbol) : bool :=
  SymbolKind_eqb (getType S) SK_VARIABLE.
Definition classofExternSymbol (S : LoadedCodeObjectSymbol) : bool :=
  SymbolKind_eqb (getType S) SK_EXTERNAL.

End SymbolFunctors.

(** * Queries on loaded code objects (LoadedCodeObject.h, HsaError.h) *)

Module HsaQueries.
Import LCOSymbol.

(** The argument [llvm::formatv] substitutes into an error message. *)
Inductive FormatArg :=
| HandleArg (h : Z)
| TextArg (s : string).

(** [llvm::formatv(Format, Arg)], kept unformatted. *)
Record Message := mkMessage { Format : string; Arg : FormatArg }.

(** The error classes: [HsaError] with the optional [hsa_status_t],
    [GenericLuthierError], and whatever else a collaborator returns. *)
Inductive ErrorInfo :=
| HsaError (ErrorMsg : Message) (Status : option Z)
| GenericLuthierError (ErrorMsg : Message)
| OtherError (id : Z).

Inductive Result (A : Type) :=
| Ok (a : A)
| Err (e : ErrorInfo).
Arguments Ok {A} a.
Arguments Err {A} e.

(** The attributes of [hsa_ven_amd_loader_loaded_code_object_get_info] the
    header queries. *)
Inductive LCOInfo :=
| INFO_EXECUTABLE | INFO_AGENT | INFO_LOAD_DELTA | INFO_LOAD_BASE
| INFO_LOAD_SIZE | INFO_STORAGE_MEMORY_BASE | INFO_STORAGE_MEMORY_SIZE.

(** The loader API table: for a loaded code object and an attribute, the
    status returned and the value written through the out-pointer. *)
Record LoaderTable := mkLoaderTable {
  hsa_ven_amd_loader_loaded_code_object_get_info : Z -> LCOInfo -> Z * Z
}.

(** The calls made into the table so far, oldest first. *)
Abbreviation Log := (list (Z * LCOInfo)).

(** A query: it extends the log of calls and returns a value or an error. *)
Definition Query (A : Type) : Type := Log -> Result A * Log.

(** [llvm::ArrayRef{reinterpret_cast<uint8_t *>(Base), Size}] *)
Record MemoryRange := mkMemoryRange { Base : Z; Length : Z }.

Section WithStatus.

(** [HSA_STATUS_SUCCESS] of [hsa/hsa.h]. *)
Variable HSA_STATUS_SUCCESS : Z.

(** [LUTHIER_HSA_CALL_ERROR_CHECK(Expr, ErrorMsg)]: [None] is
    [llvm::Error::success()]. *)
Definition HSA_CALL_ERROR_CHECK (Status : Z) (ErrorMsg : Message)
    : option ErrorInfo :=
  if negb (Status =? HSA_STATUS_SUCCESS) then Some (HsaError ErrorMsg (Some Status))
  else None.

(** [LUTHIER_GENERIC_ERROR_CHECK(Expr, ErrorMsg)] *)
Definition GENERIC_ERROR_CHECK (Expr : bool) (ErrorMsg : Message)
    : option ErrorInfo :=
  if Expr then None else Some (GenericLuthierError ErrorMsg).

(** One call into the table, checked: the value on success, the [HsaError]
    with the status otherwise.  This is the statement
    [LUTHIER_RETURN_ON_ERROR(LUTHIER_HSA_CALL_ERROR_CHECK(get_info(LCO, Info,
    &Out), Msg));] followed by the use of [Out]. *)
Definition getInfoChecked (T : LoaderTable) (LCO : Z) (Info : LCOInfo)
    (ErrorMsg : Message) : Query Z :=
  fun log =>
    let r := hsa_ven_amd_loader_loaded_code_object_get_info T LCO Info in
    match HSA_CALL_ERROR_CHECK r.1 ErrorMsg with
    | Some e => (Err e, log ++ [(LCO, Info)])
    | None => (Ok r.2, log ++ [(LCO, Info)])
    end.

Definition loadedCodeObjectGetExecutable (T : LoaderTable) (LCO : Z) : Query Z :=
  getInfoChecked T LCO INFO_EXECUTABLE
    (mkMessage "Failed to obtain the executable of HSA loaded code object {0:x}."
       (HandleArg LCO)).

Definition loadedCodeObjectGetAgent (T : LoaderTable) (LCO : Z) : Query Z :=
  getInfoChecked T LCO INFO_AGENT
    (mkMessage "Failed to get the GPU agent of HSA loaded code object {0:x}"
       (HandleArg LCO)).

Definition loadedCodeObjectGetLoadDelta (T : LoaderTable) (LCO : Z) : Query Z :=
  getInfoChecked T LCO INFO_LOAD_DELTA
    (mkMessage "Failed to obtain the load delta of LCO {0:x}" (HandleArg LCO)).

Definition loadedCodeObjectGetLoadedMemory (T : LoaderTable) (LCO : Z)
    : Query MemoryRange :=
  fun log =>
    match getInfoChecked T LCO INFO_LOAD_BASE
            (mkMessage
               "Failed to get the load base address of loaded code object {0:x}"
               (HandleArg LCO)) log with
    | (Err e, log1) => (Err e, log1)
    | (Ok LoadBase, log1) =>
        match getInfoChecked T LCO INFO_LOAD_SIZE
                (mkMessage
                   "Failed to get the load size of loaded code object {0:x}"
                   (HandleArg LCO)) log1 with
        | (Err e, log2) => (Err e, log2)
        | (Ok LoadSize, log2) => (Ok (mkMemoryRange LoadBase LoadSize), log2)
        end
    end.

Definition loadedCodeObjectGetStorageMemory (T : LoaderTable) (LCO : Z)
    : Query MemoryRange :=
  fun log =>
    match getInfoChecked T LCO INFO_STORAGE_MEMORY_BASE
            (mkMessage
               "Failed to get the storage memory base of loaded code object {0:x}"
               (HandleArg LCO)) log with
    | (Err e, log1) => (Err e, log1)
    | (Ok StorageBase, log1) =>
        match getInfoChecked T LCO INFO_STORAGE_MEMORY_SIZE
                (mkMessage
                   "Failed to get the storage memory size loaded code object {0:x}"
                   (HandleArg LCO)) log1 with
        | (Err e, log2) => (Err e, log2)
        | (Ok StorageSize, log2) =>
            (Ok (mkMemoryRange StorageBase StorageSize), log2)
        end
    end.

(** What [LoadedCodeObjectExternSymbol::create] needs besides the loader
    table: the name of an ELF symbol ([ELFSymbolRef::getName]) and the lookup
    of an executable's symbol by name and agent
    ([hsa::executableGetSymbolByName], declared outside the header). *)
Record SymbolServices := mkSymbolServices {
  getName : DataRefImpl -> Result string;
  executableGetSymbolByName : Z -> string -> Z -> Result (option Z)
}.

(** [LoadedCodeObjectExternSymbol::create] *)
Definition createExternSymbol (T : LoaderTable) (C : SymbolServices)
    (LCO StorageElf : Z) (ExternSymbol : DataRefImpl)
    : Query LoadedCodeObjectSymbol :=
  fun log =>
    match loadedCodeObjectGetExecutable T LCO log with
    | (Err e, log1) => (Err e, log1)
    | (Ok Exec, log1) =>
        match loadedCodeObjectGetAgent T LCO log1 with
        | (Err e, log2) => (Err e, log2)
        | (Ok Agent, log2) =>
            match getName C ExternSymbol with
            | Err e => (Err e, log2)
            | Ok Name =>
                match executableGetSymbolByName C Exec Name Agent with
                | Err e => (Err e, log2)
                | Ok ExecSymbol =>
                    match GENERIC_ERROR_CHECK
                            (match ExecSymbol with Some _ => true | None => false end)
                            (mkMessage
                               "Failed to locate the external symbol {0} in its executable using its name"
                               (TextArg Name)) with
                    | Some e => (Err e, log2)
                    | None =>
                        match ExecSymbol with
                        | Some h =>
                            (Ok (SymbolFunctors.LoadedCodeObjectExternSymbol
                                   LCO StorageElf ExternSymbol h), log2)
                        | None =>
                            (Err (GenericLuthierError
                                    (mkMessage "unreachable" (TextArg Name))), log2)
                        end
                    end
                end
            end
        end
    end.

End WithStatus.

(** ** Function objects over [hsa_loaded_code_object_t] *)

(** [llvm::DenseMapInfo<hsa_loaded_code_object_t>::isEqual] and the
    specialisations of the [std] comparison objects, all on [handle]. *)
Definition isEqual (Lhs Rhs : Z) : bool := Lhs =? Rhs.
Definition less (Lhs Rhs : Z) : bool := Lhs <? Rhs.
Definition less_equal (Lhs Rhs : Z) : bool := Lhs <=? Rhs.
Definition equal_to (Lhs Rhs : Z) : bool := Lhs =? Rhs.
Definition not_equal_to (Lhs Rhs : Z) : bool := negb (Lhs =? Rhs).
Definition greater (Lhs Rhs : Z) : bool := Lhs >? Rhs.
Definition greater_equal (Lhs Rhs : Z) : bool := Lhs >=? Rhs.

Section HandleHash.

(** [DenseMapInfo<uint64_t>::getHashValue] and [std::hash<unsigned long>]. *)
Variable handleHashValue : Z -> Z.
Variable stdHash : Z -> Z.

Definition getHashValue (LCO : Z) : Z := handleHashValue LCO.
Definition std_hash (Obj : Z) : Z := stdHash Obj.

End HandleHash.

End HsaQueries.

(** * Singletons (Singleton.h) *)

Module Singleton.

(** A run of the process: it goes on with a value, or
    [llvm::report_fatal_error] ends it. *)
Inductive Outcome (A : Type) :=
| Continues (a : A)
| FatalError (msg : string).
Arguments Continues {A} a.
Arguments FatalError {A} msg.

(** [static T *Instance]: [None] is [nullptr]. *)
Abbreviation InstancePtr := (option Z).

(** [Singleton()], run for the object at [this]. *)
Definition construct (this : Z) (Instance : InstancePtr) : Outcome InstancePtr :=
  match Instance with
  | None => Continues (Some this)
  | Some _ => FatalError "Called the Singleton constructor twice."
  end.

(** [~Singleton()] *)
Definition destruct (Instance : InstancePtr) : InstancePtr := None.

(** [static T &instance()] *)
Definition instance (Instance : InstancePtr) : Outcome Z :=
  match Instance with
  | Some p => Continues p
  | None => FatalError "Singleton is not initialized"
  end.

Definition isInitialized (Instance : InstancePtr) : bool :=
  match Instance with Some _ => true | None => false end.

(** What a program does with a singleton class. *)
Inductive Op :=
| New (this : Z)
| Delete
| GetInstance.

(** A program run from a state of [Instance]: the final state and what the
    calls of [instance()] returned, in order. *)
Fixpoint run (ops : list Op) (Instance : InstancePtr)
    : Outcome (InstancePtr * list Z) :=
  match ops with
  | [] => Continues (Instance, [])
  | New this :: rest =>
      match construct this Instance with
      | FatalError msg => FatalError msg
      | Continues Instance' => run rest Instance'
      end
  | Delete :: rest => run rest (destruct Instance)
  | GetInstance :: rest =>
      match instance Instance with
      | FatalError msg => FatalError msg
      | Continues p =>
          match run rest Instance with
          | FatalError msg => FatalError msg
          | Continues (Instance', outs) => Continues (Instance', p :: outs)
          end
      end
  end.

End Singleton.

(** * Intrinsics (IntrinsicProcessor.h, CodeGenerator.h) *)

Module Intrinsics.

(** [enum KernelArgumentType], with the values the header gives. *)
Inductive KernelArgumentType :=
| WAVEFRONT_PRIVATE_SEGMENT_BUFFER | KERNARG_SEGMENT_PTR | HIDDEN_KERNARG_OFFSET
| USER_KERNARG_OFFSET | DISPATCH_ID | FLAT_SCRATCH
| PRIVATE_SEGMENT_WAVE_BYTE_OFFSET | DISPATCH_PTR | QUEUE_PTR
| WORK_ITEM_PRIVATE_SEGMENT_SIZE | BLOCK_COUNT_X | BLOCK_COUNT_Y | BLOCK_COUNT_Z
| GROUP_SIZE_X | GROUP_SIZE_Y | GROUP_SIZE_Z | REMAINDER_X | REMAINDER_Y
| REMAINDER_Z | GLOBAL_OFFSET_X | GLOBAL_OFFSET_Y | GLOBAL_OFFSET_Z
| PRINT_BUFFER | HOSTCALL_BUFFER | DEFAULT_QUEUE | COMPLETION_ACTION
| MULTIGRID_SYNC | GRID_DIMS | HEAP_V1 | DYNAMIC_LDS_SIZE | PRIVATE_BASE
| SHARED_BASE | WORK_ITEM_X | WORK_ITEM_Y | WORK_ITEM_Z.

Definition value (k : KernelArgumentType) : Z :=
  match k with
  | WAVEFRONT_PRIVATE_SEGMENT_BUFFER => 0 | KERNARG_SEGMENT_PTR => 1
  | HIDDEN_KERNARG_OFFSET => 2 | USER_KERNARG_OFFSET => 3 | DISPATCH_ID => 4
  | FLAT_SCRATCH => 5 | PRIVATE_SEGMENT_WAVE_BYTE_OFFSET => 6
  | DISPATCH_PTR => 7 | QUEUE_PTR => 8 | WORK_ITEM_PRIVATE_SEGMENT_SIZE => 9
  | BLOCK_COUNT_X => 10 | BLOCK_COUNT_Y => 11 | BLOCK_COUNT_Z => 12
  | GROUP_SIZE_X => 13 | GROUP_SIZE_Y => 14 | GROUP_SIZE_Z => 15
  | REMAINDER_X => 16 | REMAINDER_Y => 17 | REMAINDER_Z => 18
  | GLOBAL_OFFSET_X => 19 | GLOBAL_OFFSET_Y => 20 | GLOBAL_OFFSET_Z => 21
  | PRINT_BUFFER => 22 | HOSTCALL_BUFFER => 23 | DEFAULT_QUEUE => 24
  | COMPLETION_ACTION => 25 | MULTIGRID_SYNC => 26 | GRID_DIMS => 27
  | HEAP_V1 => 28 | DYNAMIC_LDS_SIZE => 29 | PRIVATE_BASE => 30
  | SHARED_BASE => 31 | WORK_ITEM_X => 32 | WORK_ITEM_Y => 33 | WORK_ITEM_Z => 34
  end.

(** The enumerators that mark where a region begins and ends. *)
Definition ALWAYS_IN_SGPR_BEGIN := WAVEFRONT_PRIVATE_SEGMENT_BUFFER.
Definition ALWAYS_IN_SGPR_END := PRIVATE_SEGMENT_WAVE_BYTE_OFFSET.
Definition EITHER_IN_SGPR_OR_HIDDEN_BEGIN := DISPATCH_PTR.
Definition EITHER_IN_SGPR_OR_HIDDEN_END := WORK_ITEM_PRIVATE_SEGMENT_SIZE.
Definition HIDDEN_BEGIN := BLOCK_COUNT_X.
Definition HIDDEN_END := SHARED_BASE.

(** [Begin <= k && k <= End] on the enumerators' values. *)
Definition within (Begin End k : KernelArgumentType) : bool :=
  (value Begin <=? value k) && (value k <=? value End).

(** [IntrinsicValueLoweringInfo]; [Val] is a [const llvm::Value *]. *)
Record IntrinsicValueLoweringInfo := mkValueInfo {
  Val : option Z;
  Constraint : string
}.

Record IntrinsicIRLoweringInfo := mkIRLoweringInfo {
  IntrinsicName : string;
  PlaceHolderInlineAsm : option Z;
  OutValue : IntrinsicValueLoweringInfo;
  Args : list IntrinsicValueLoweringInfo;
  Data : option Z;                               (* llvm::Any *)
  AccessedPhysicalRegisters : gset Z;            (* llvm::MCRegister *)
  AccessedKernelArguments : gset Z               (* KernelArgumentType, by value *)
}.

(** The member initialisers. *)
Definition defaultInfo : IntrinsicIRLoweringInfo :=
  mkIRLoweringInfo "" None (mkValueInfo None "") [] None ∅ ∅.

Definition setIntrinsicName (Name : string) (I : IntrinsicIRLoweringInfo) :=
  mkIRLoweringInfo Name (PlaceHolderInlineAsm I) (OutValue I) (Args I) (Data I)
    (AccessedPhysicalRegisters I) (AccessedKernelArguments I).

Definition setPlaceHolderInlineAsm (IA : Z) (I : IntrinsicIRLoweringInfo) :=
  mkIRLoweringInfo (IntrinsicName I) (Some IA) (OutValue I) (Args I) (Data I)
    (AccessedPhysicalRegisters I) (AccessedKernelArguments I).

Definition setReturnValueInfo (V : option Z) (C : string)
    (I : IntrinsicIRLoweringInfo) :=
  mkIRLoweringInfo (IntrinsicName I) (PlaceHolderInlineAsm I) (mkValueInfo V C)
    (Args I) (Data I) (AccessedPhysicalRegisters I) (AccessedKernelArguments I).

Definition addArgInfo (V : option Z) (C : string) (I : IntrinsicIRLoweringInfo) :=
  mkIRLoweringInfo (IntrinsicName I) (PlaceHolderInlineAsm I) (OutValue I)
    (Args I ++ [mkValueInfo V C]) (Data I)
    (AccessedPhysicalRegisters I) (AccessedKernelArguments I).

Definition setLoweringData (D : Z) (I : IntrinsicIRLoweringInfo) :=
  mkIRLoweringInfo (IntrinsicName I) (PlaceHolderInlineAsm I) (OutValue I)
    (Args I) (Some D) (AccessedPhysicalRegisters I) (AccessedKernelArguments I).

Definition requestAccessToPhysicalRegister (PhysReg : Z)
    (I : IntrinsicIRLoweringInfo) :=
  mkIRLoweringInfo (IntrinsicName I) (PlaceHolderInlineAsm I) (OutValue I)
    (Args I) (Data I) ({[PhysReg]} ∪ AccessedPhysicalRegisters I)
    (AccessedKernelArguments I).

Definition requestAccessToKernelArgument (KernArg : KernelArgumentType)
    (I : IntrinsicIRLoweringInfo) :=
  mkIRLoweringInfo (IntrinsicName I) (PlaceHolderInlineAsm I) (OutValue I)
    (Args I) (Data I) (AccessedPhysicalRegisters I)
    ({[value KernArg]} ∪ AccessedKernelArguments I).

Definition getArgsInfo (I : IntrinsicIRLoweringInfo) := Args I.
Definition getReturnValueInfo (I : IntrinsicIRLoweringInfo) := OutValue I.
Definition getIntrinsicName (I : IntrinsicIRLoweringInfo) := IntrinsicName I.
Definition accessed_phys_regs_size (I : IntrinsicIRLoweringInfo) : nat :=
  size (AccessedPhysicalRegisters I).
Definition accessed_phys_regs_empty (I : IntrinsicIRLoweringInfo) : bool :=
  bool_decide (AccessedPhysicalRegisters I = ∅).
Definition accessed_kernargs_size (I : IntrinsicIRLoweringInfo) : nat :=
  size (AccessedKernelArguments I).

(** The calls an IR processor makes on the info it builds. *)
Inductive Setter :=
| SetIntrinsicName (Name : string)
| SetPlaceHolderInlineAsm (IA : Z)
| SetReturnValueInfo (V : option Z) (C : string)
| AddArgInfo (V : option Z) (C : string)
| SetLoweringData (D : Z)
| RequestAccessToPhysicalRegister (PhysReg : Z)
| RequestAccessToKernelArgument (KernArg : KernelArgumentType).

Definition applySetter (s : Setter) : IntrinsicIRLoweringInfo -> IntrinsicIRLoweringInfo :=
  match s with
  | SetIntrinsicName Name => setIntrinsicName Name
  | SetPlaceHolderInlineAsm IA => setPlaceHolderInlineAsm IA
  | SetReturnValueInfo V C => setReturnValueInfo V C
  | AddArgInfo V C => addArgInfo V C
  | SetLoweringData D => setLoweringData D
  | RequestAccessToPhysicalRegister PhysReg => requestAccessToPhysicalRegister PhysReg
  | RequestAccessToKernelArgument KernArg => requestAccessToKernelArgument KernArg
  end.

Definition applySetters (ss : list Setter) (I : IntrinsicIRLoweringInfo)
    : IntrinsicIRLoweringInfo :=
  fold_left (fun I s => applySetter s I) ss I.

(** The arguments, registers and return-value infos a sequence of calls
    names, in call order. *)
Definition argsOf (ss : list Setter) : list IntrinsicValueLoweringInfo :=
  flat_map (fun s => match s with AddArgInfo V C => [mkValueInfo V C] | _ => [] end) ss.

Definition registersOf (ss : list Setter) : list Z :=
  flat_map (fun s => match s with
                     | RequestAccessToPhysicalRegister r => [r]
                     | _ => []
                     end) ss.

Definition returnInfosOf (ss : list Setter) : list IntrinsicValueLoweringInfo :=
  flat_map (fun s => match s with
                     | SetReturnValueInfo V C => [mkValueInfo V C]
                     | _ => []
                     end) ss.

(** [struct IntrinsicProcessor]: the two processor functions. *)
Record IntrinsicProcessor := mkProcessor {
  IRProcessor : Z;
  MIRProcessor : Z
}.

(** [CodeGenerator::registerIntrinsic]:
    [IntrinsicsProcessors.insert({Name, std::move(Processor)})], and
    [llvm::StringMap::insert] leaves a present key alone. *)
Definition registerIntrinsic (Name : string) (Processor : IntrinsicProcessor)
    (IntrinsicsProcessors : gmap string IntrinsicProcessor)
    : gmap string IntrinsicProcessor :=
  match IntrinsicsProcessors !! Name with
  | Some _ => IntrinsicsProcessors
  | None => <[Name := Processor]> IntrinsicsProcessors
  end.

Definition registerIntrinsics (regs : list (string * IntrinsicProcessor))
    (IntrinsicsProcessors : gmap string IntrinsicProcessor)
    : gmap string IntrinsicProcessor :=
  fold_left (fun m r => registerIntrinsic r.1 r.2 m) regs IntrinsicsProcessors.

(** [KernelPreambleSpecs] of PrePostAmbleEmitter.h. *)
Record KernelPreambleSpecs := mkKernelPreambleSpecs {
  RequiresScratchAndStackSetup : bool;
  RequestedAdditionalStackSizeInBytes : Z;        (* unsigned int *)
  RequestedKernelArguments : gset Z
}.

Definition defaultKernelPreambleSpecs : KernelPreambleSpecs :=
  mkKernelPreambleSpecs false 0 ∅.

(** [KernelPreambleSpecs::usesSVA] *)
Definition usesSVA (S : KernelPreambleSpecs) : bool :=
  RequiresScratchAndStackSetup S
  || negb (RequestedAdditionalStackSizeInBytes S =? 0)
  || negb (bool_decide (RequestedKernelArguments S = ∅)).

End Intrinsics.

(** * More on the loader and on disassembly: helpers for statements *)

Module Loader2.
Import Loader.

(** The instrumented executables on file for an original executable. *)
Definition dependents (L : ToolExecutableLoader) (OriginalExecutable : Z) : gset Z :=
  default ∅ (OriginalExecutablesWithKernelsInstrumented L !! OriginalExecutable).

(** The first registration of a list that is for [(K, P)]. *)
Definition firstFor (K : Z) (P : string) (rs : list Registration)
    : option Registration :=
  List.find (fun r => (OriginalKernel r =? K) && bool_decide (Preset r = P)) rs.


End Loader2.

Module Lifter2.
Import LCOSymbol Lifter.

(** The error of the first collaborator of [disassemble] that fails for
    [Sym], in the order of the calls, if any does. *)
Definition firstFailure (env : Services) (Sym : LoadedCodeObjectSymbol)
    : option Error :=
  match getAssociatedObjectFile env (getLoadedCodeObject Sym) with
  | Failure e => Some e
  | Success ObjFile =>
  match getObjectFileTargetTuple env ObjFile with
  | Failure e => Some e
  | Success LLVMIsa =>
  match isaFromLLVM env LLVMIsa with
  | Failure e => Some e
  | Success ISA =>
  match getLoadedSymbolContents env Sym with
  | Failure e => Some e
  | Success Dev =>
  match convertToHostEquivalent env Dev with
  | Failure e => Some e
  | Success Host =>
  match disassembleCode env ISA (bytes Host) with
  | Failure e => Some e
  | Success _ =>
  match getTargetInfo env ISA with
  | Failure e => Some e
  | Success _ => None
  end end end end end end end.

(** What the decoder returned for [Sym], when every collaborator before it
    succeeded. *)
Definition decoded (env : Services) (Sym : LoadedCodeObjectSymbol)
    : option (ByteRange * list MCInst * list Z) :=
  match getAssociatedObjectFile env (getLoadedCodeObject Sym) with
  | Failure _ => None
  | Success ObjFile =>
  match getObjectFileTargetTuple env ObjFile with
  | Failure _ => None
  | Success LLVMIsa =>
  match isaFromLLVM env LLVMIsa with
  | Failure _ => None
  | Success ISA =>
  match getLoadedSymbolContents env Sym with
  | Failure _ => None
  | Success Dev =>
  match convertToHostEquivalent env Dev with
  | Failure _ => None
  | Success Host =>
  match disassembleCode env ISA (bytes Host) with
  | Failure _ => None
  | Success IA => Some (Dev, IA.1, IA.2)
  end end end end end end.

(** Each address paired with the one before it, the first with [start]. *)
Fixpoint distances (start : Z) (addresses : list Z) : list Z :=
  match addresses with
  | [] => []
  | a :: rest => wrap64 (a - start) :: distances a rest
  end.

(** The loop's [Address] in iteration [i]:
    [Addresses[I] + BaseLoadedAddress]. *)
Definition addressAt (BaseLoadedAddress : Z) (Addresses : list Z) (i : nat) : Z :=
  wrap64 (default 0 (Addresses !! i) + BaseLoadedAddress).

(** The loop's [PrevInstAddress] on entry to iteration [i]:
    [BaseLoadedAddress] at first, then the [Address] of the iteration before. *)
Definition prevInstAddressAt (BaseLoadedAddress : Z) (Addresses : list Z)
    (i : nat) : Z :=
  match i with
  | O => BaseLoadedAddress
  | S j => addressAt BaseLoadedAddress Addresses j
  end.

(** The loop's [Size] in iteration [i]: [Address - PrevInstAddress]. *)
Definition sizeAt (BaseLoadedAddress : Z) (Addresses : list Z) (i : nat) : Z :=
  wrap64 (addressAt BaseLoadedAddress Addresses i
          - prevInstAddressAt BaseLoadedAddress Addresses i).

End Lifter2.

(** * Properties

    ** Machine integers *)

Lemma wrap64_range x : 0 <= wrap64 x < 2 ^ 64.
Proof. unfold wrap64. apply Z.mod_pos_bound. lia. Qed.

Lemma wrap64_small x : 0 <= x < 2 ^ 64 -> wrap64 x = x.
Proof. intros H. unfold wrap64. now apply Z.mod_small. Qed.


(** ** AQL packets *)

Section AqlFacts.
Import Aql.

Variables HEADER_TYPE WIDTH_TYPE : Z.
Variables VENDOR_SPECIFIC KERNEL_DISPATCH BARRIER_AND BARRIER_OR AGENT_DISPATCH : Z.

Local Abbreviation packetType := (getPacketType HEADER_TYPE WIDTH_TYPE).
Local Abbreviation typeOf :=
  (accessorType VENDOR_SPECIFIC KERNEL_DISPATCH BARRIER_AND BARRIER_OR AGENT_DISPATCH).
Local Abbreviation accessor :=
  (access HEADER_TYPE WIDTH_TYPE
     VENDOR_SPECIFIC KERNEL_DISPATCH BARRIER_AND BARRIER_OR AGENT_DISPATCH).

Lemma access_unfold (a : Accessor) (P : AqlPacket) :
  accessor a P = if packetType P =? typeOf a then ContentsOf P else nullptr.
Proof. destruct a; reflexivity. Qed.

(** C9. For every packet and each of the five typed accessors, the accessor
    returns the (non-null) pointer to the packet's contents exactly when the
    type extracted from the header is the accessor's packet type, and
    [nullptr] otherwise. *)
Theorem typed_accessor_iff_packet_type (a : Accessor) (P : AqlPacket) :
  (accessor a P = ContentsOf P <-> packetType P = typeOf a)
  /\ (accessor a P <> nullptr <-> packetType P = typeOf a)
  /\ (accessor a P = nullptr <-> packetType P <> typeOf a).
Proof.
  rewrite access_unfold.
  destruct (Z.eqb_spec (packetType P) (typeOf a)) as [E|E].
  - split; [|split]; split; intros H; try exact E; try reflexivity.
    + discriminate.
    + discriminate H.
    + contradiction.
  - split; [|split]; split; intros H; try exact E; try reflexivity.
    + discriminate H.
    + contradiction.
    + exfalso. apply H. reflexivity.
    + contradiction.
Qed.

End AqlFacts.

(** With the constants of [hsa/hsa.h]: a header whose low byte is 2 is a
    kernel dispatch. *)
Example kernel_dispatch_header :
  Aql.hsa_access Aql.KernelDispatch (Aql.mkAqlPacket 0x1502 []) =
    Aql.ContentsOf (Aql.mkAqlPacket 0x1502 [])
  /\ Aql.hsa_access Aql.BarrierAnd (Aql.mkAqlPacket 0x1502 []) = Aql.nullptr.
Proof. split; reflexivity. Qed.

(** ** Symbols as keys *)

Section SymbolFacts.
Import LCOSymbol.

Lemma SymbolKind_eqb_eq k1 k2 : SymbolKind_eqb k1 k2 = true <-> k1 = k2.
Proof.
  unfold SymbolKind_eqb. rewrite Z.eqb_eq.
  destruct k1, k2; simpl; split; intros H; try reflexivity; discriminate H.
Qed.

Lemma DataRefImpl_eqb_eq r1 r2 : DataRefImpl_eqb r1 r2 = true <-> r1 = r2.
Proof.
  unfold DataRefImpl_eqb. rewrite andb_true_iff, !Z.eqb_eq.
  destruct r1, r2; simpl. split.
  - intros [-> ->]. reflexivity.
  - intros H. injection H as -> ->. split; reflexivity.
Qed.

Lemma eqb_key A B : eqb A B = true <-> key A = key B.
Proof.
  unfold eqb, key.
  destruct (ExecutableSymbol A) as [h|], (ExecutableSymbol B) as [h'|]; simpl;
    rewrite ?andb_true_iff, ?DataRefImpl_eqb_eq, ?Z.eqb_eq, ?SymbolKind_eqb_eq;
    split.
  - intros [[[-> ->] ->] ->]. reflexivity.
  - intros H. injection H as -> -> -> ->. repeat split; reflexivity.
  - intros [_ H]. discriminate H.
  - intros H. discriminate H.
  - intros [_ H]. discriminate H.
  - intros H. discriminate H.
  - intros [[[-> ->] ->] _]. reflexivity.
  - intros H. injection H as -> -> ->. repeat split; reflexivity.
Qed.

Lemma eqb_refl A : eqb A A = true.
Proof. apply eqb_key. reflexivity. Qed.

Lemma eqb_sym A B : eqb A B = eqb B A.
Proof.
  destruct (eqb A B) eqn:E1, (eqb B A) eqn:E2; try reflexivity.
  - apply eqb_key in E1. symmetry in E1. apply eqb_key in E1. congruence.
  - apply eqb_key in E2. symmetry in E2. apply eqb_key in E2. congruence.
Qed.

Lemma eqb_trans A B C : eqb A B = true -> eqb B C = true -> eqb A C = true.
Proof. rewrite !eqb_key. congruence. Qed.

Lemma eqb_clone_l A B : eqb (clone A) B = eqb A B.
Proof. reflexivity. Qed.

Lemma eqb_clone_r A B : eqb A (clone B) = eqb A B.
Proof. reflexivity. Qed.

Lemma find_eqb_key {V} (m : list (LoadedCodeObjectSymbol * V)) A B :
  eqb A B = true -> Lifter.find m A = Lifter.find m B.
Proof.
  intros H. induction m as [|[K v] m IH]; simpl; [reflexivity|].
  assert (eqb K A = eqb K B) as ->.
  { destruct (eqb K A) eqn:E1, (eqb K B) eqn:E2; try reflexivity.
    - rewrite (eqb_trans _ _ _ E1 H) in E2. discriminate.
    - rewrite eqb_sym in H. rewrite (eqb_trans _ _ _ E2 H) in E1. discriminate. }
  rewrite IH. reflexivity.
Qed.

Variable hash_combine : list Z -> Z.

(** C10. Two symbols equal under [operator==] have equal hashes; a symbol and
    its clone are equal and hash equally; and equal symbols select the same
    entry of a cache keyed by symbols. *)
Theorem equal_symbols_hash_equal (A B : LoadedCodeObjectSymbol) :
  eqb A B = true ->
  hash hash_combine A = hash hash_combine B
  /\ eqb A (clone A) = true
  /\ eqb (clone A) A = true
  /\ hash hash_combine (clone A) = hash hash_combine A
  /\ forall V (m : list (LoadedCodeObjectSymbol * V)),
       Lifter.find m (clone A) = Lifter.find m B.
Proof.
  intros H. split; [|split; [|split; [|split]]].
  - apply eqb_key in H. unfold key in H. injection H as H1 H2 H3 H4.
    unfold hash. rewrite H1, H2, H3, H4. reflexivity.
  - rewrite eqb_clone_r. apply eqb_refl.
  - rewrite eqb_clone_l. apply eqb_refl.
  - reflexivity.
  - intros V m. apply find_eqb_key. rewrite eqb_clone_l. exact H.
Qed.

End SymbolFacts.

(** A kernel symbol and a symbol read again from another parse of the same
    ELF: equal, so equally hashed. *)
Lemma equal_symbols_hash_equal_witness :
  let A := LCOSymbol.mkSymbol 7 100 (LCOSymbol.mkDataRefImpl 3 1)
             LCOSymbol.SK_KERNEL (Some 42) in
  let B := LCOSymbol.mkSymbol 7 200 (LCOSymbol.mkDataRefImpl 3 1)
             LCOSymbol.SK_KERNEL (Some 42) in
  LCOSymbol.eqb A B = true
  /\ LCOSymbol.hash (fun l => fold_right Z.add 0 l) A
     = LCOSymbol.hash (fun l => fold_right Z.add 0 l) B.
Proof.
  intros A B. split; [reflexivity|].
  apply (equal_symbols_hash_equal (fun l => fold_right Z.add 0 l) A B).
  reflexivity.
Defined.

(** ** The symbol-keyed maps *)

Section MapFacts.
Import LCOSymbol Lifter.
Context {V : Type}.
Implicit Types (m : list (LoadedCodeObjectSymbol * V)) (S K : LoadedCodeObjectSymbol).

Lemma find_app m m' S :
  find (m ++ m') S = match find m S with Some v => Some v | None => find m' S end.
Proof.
  induction m as [|[K v] m IH]; simpl; [reflexivity|].
  destruct (eqb K S); [reflexivity|exact IH].
Qed.

Lemma find_app_Some m m' S v : find m S = Some v -> find (m ++ m') S = Some v.
Proof. intros H. rewrite find_app, H. reflexivity. Qed.

Lemma contains_false m S : contains m S = false <-> find m S = None.
Proof. unfold contains. destruct (find m S); split; congruence. Qed.

Lemma contains_true m S : contains m S = true <-> exists v, find m S = Some v.
Proof.
  unfold contains. destruct (find m S) as [v|]; split; try congruence.
  - intros _. exists v. reflexivity.
  - intros [v H]. discriminate H.
Qed.

Lemma update_app_r m m' S f :
  find m S = None -> update (m ++ m') S f = m ++ update m' S f.
Proof.
  induction m as [|[K v] m IH]; simpl; [reflexivity|].
  destruct (eqb K S); [discriminate|]. intros H. rewrite IH by exact H. reflexivity.
Qed.

Lemma emplace_fresh m K v : find m K = None -> emplace m K v = m ++ [(K, v)].
Proof. intros H. unfold emplace, contains. rewrite H. reflexivity. Qed.

Lemma find_filter_None m (p : LoadedCodeObjectSymbol -> bool) S :
  (forall K, eqb K S = true -> p K = false) ->
  find (List.filter (fun e => p e.1) m) S = None.
Proof.
  intros H. induction m as [|[K v] m IH]; simpl; [reflexivity|].
  destruct (p K) eqn:E; simpl; [|exact IH].
  destruct (eqb K S) eqn:E'; [|exact IH].
  rewrite (H K E') in E. discriminate.
Qed.

End MapFacts.

(** ** Disassembly *)

Section DisassemblyFacts.
Import LCOSymbol Lifter.

Lemma extends_refl st : extends st st.
Proof. split; exists []; rewrite app_nil_r; reflexivity. Qed.

Lemma extends_trans st1 st2 st3 : extends st1 st2 -> extends st2 st3 -> extends st1 st3.
Proof.
  intros [[a Ha] [b Hb]] [[c Hc] [d Hd]]. split.
  - exists (a ++ c). rewrite Hc, Ha, app_assoc. reflexivity.
  - exists (b ++ d). rewrite Hd, Hb, app_assoc. reflexivity.
Qed.

Lemma extends_find_disassembled st st' S v :
  extends st st' ->
  find (MCDisassembledSymbols st) S = Some v ->
  find (MCDisassembledSymbols st') S = Some v.
Proof. intros [[l ->] _] H. apply find_app_Some, H. Qed.

Lemma extends_find_lifted st st' S v :
  extends st st' ->
  find (LiftedKernelSymbols st) S = Some v ->
  find (LiftedKernelSymbols st') S = Some v.
Proof. intros [_ [l ->]] H. apply find_app_Some, H. Qed.

Lemma isTarget_add LCO A st lco T :
  isAddressDirectBranchTarget (addDirectBranchTargetAddress LCO A st) lco T = true
  <-> isAddressDirectBranchTarget st lco T = true \/ (lco = LCO /\ T = A).
Proof.
  unfold isAddressDirectBranchTarget, addDirectBranchTargetAddress; simpl.
  destruct (decide (LCO = lco)) as [->|Hne].
  - rewrite lookup_insert_eq.
    destruct (DirectBranchTargetLocations st !! lco) as [s|]; simpl;
      rewrite ?bool_decide_eq_true; split.
    + intros [H%elem_of_singleton|H]%elem_of_union; [right|left]; auto.
    + intros [H|[_ ->]]; set_solver.
    + intros [H%elem_of_singleton|H]%elem_of_union; [right; auto|set_solver].
    + intros [H|[_ ->]]; [discriminate|set_solver].
  - rewrite lookup_insert_ne by exact Hne. split; [auto|].
    intros [H|[-> _]]; [exact H|contradiction].
Qed.

(** What the loop does to a state whose disassembly cache ends with the entry
    of [Sym]. *)
Lemma disassembleLoop_spec env TI Sym LCO Base Is :
  forall As Prev st m K a acc,
    MCDisassembledSymbols st = m ++ [(K, (a, acc))] ->
    find m Sym = None -> eqb K Sym = true ->
    let st' := disassembleLoop env TI Sym LCO Base Is As Prev st in
    MCDisassembledSymbols st'
      = m ++ [(K, (a, acc ++ loopRecords Sym Base Is As Prev))]
    /\ LiftedKernelSymbols st' = LiftedKernelSymbols st
    /\ NextAlloc st' = NextAlloc st
    /\ forall lco T,
         isAddressDirectBranchTarget st' lco T = true
         <-> isAddressDirectBranchTarget st lco T = true
             \/ (lco = LCO
                 /\ exists rec, rec ∈ loopRecords Sym Base Is As Prev
                                /\ branchTarget env TI rec = Some T).
Proof.
  induction Is as [|Ins Is IH]; intros As Prev st m K a acc Hm Hf HK; simpl.
  - rewrite app_nil_r. repeat split; auto.
    intros [H|[_ [rec [H _]]]]; [exact H|]. inversion H.
  - destruct As as [|A As]; simpl.
    { rewrite app_nil_r. repeat split; auto.
      intros [H|[_ [rec [H _]]]]; [exact H|]. inversion H. }
    set (Address := wrap64 (A + Base)).
    set (Size := wrap64 (Address - Prev)).
    set (st1 := if isBranch env TI (Opcode Ins) then
                  match evaluateBranch env Ins Address Size with
                  | Some Target => addDirectBranchTargetAddress LCO Target st
                  | None => st
                  end
                else st).
    assert (Hst1 : MCDisassembledSymbols st1 = MCDisassembledSymbols st
                   /\ LiftedKernelSymbols st1 = LiftedKernelSymbols st
                   /\ NextAlloc st1 = NextAlloc st).
    { unfold st1. destruct (isBranch env TI (Opcode Ins)); [|auto].
      destruct (evaluateBranch env Ins Address Size); auto. }
    destruct Hst1 as (H1 & H2 & H3).
    set (rec0 := mkInstr Ins Sym Address Size).
    assert (Hpb : MCDisassembledSymbols (push_back Sym rec0 st1)
                  = m ++ [(K, (a, (acc ++ [rec0])))]).
    { unfold push_back; simpl. rewrite H1, Hm.
      rewrite update_app_r by exact Hf. simpl. rewrite HK. reflexivity. }
    destruct (IH As Address (push_back Sym rec0 st1) m K a (acc ++ [rec0])
                Hpb Hf HK) as (G1 & G2 & G3 & G4).
    split; [|split; [|split]].
    + rewrite G1, <- app_assoc. reflexivity.
    + rewrite G2. exact H2.
    + rewrite G3. exact H3.
    + intros lco T. rewrite G4.
      assert (Hrec : isAddressDirectBranchTarget (push_back Sym rec0 st1) lco T = true
                     <-> isAddressDirectBranchTarget st lco T = true
                         \/ (lco = LCO /\ branchTarget env TI rec0 = Some T)).
      { change (isAddressDirectBranchTarget (push_back Sym rec0 st1) lco T)
          with (isAddressDirectBranchTarget st1 lco T).
        unfold branchTarget, st1; simpl.
        destruct (isBranch env TI (Opcode Ins)).
        - destruct (evaluateBranch env Ins Address Size) as [Target|].
          + rewrite isTarget_add. split.
            * intros [H|[-> ->]]; auto.
            * intros [H|[-> H]]; [auto|]. injection H as ->. auto.
          + split; [auto|]. intros [H|[_ H]]; [exact H|discriminate].
        - split; [auto|]. intros [H|[_ H]]; [exact H|discriminate]. }
      rewrite Hrec. split.
      * intros [[H|[-> H]]|[-> [rec [Hin H]]]]; auto.
        -- right. split; [reflexivity|]. exists rec0. split; [left|exact H].
        -- right. split; [reflexivity|]. exists rec. split; [right; exact Hin|exact H].
      * intros [H|[-> [rec [Hin H]]]]; [auto|].
        apply elem_of_cons in Hin as [->|Hin]; [auto|].
        right. split; [reflexivity|]. exists rec. auto.
Qed.

Lemma disassemble_cached env Sym st v :
  find (MCDisassembledSymbols st) Sym = Some v ->
  disassemble env Sym st = (Success (mkInstrRef v.1 v.2), st).
Proof.
  intros H. unfold disassemble, contains, findDisassembled. rewrite H. simpl.
  destruct v. reflexivity.
Qed.

(** The three ways a first disassembly of [Sym] ends: an early failure with
    the state untouched, a failure of the target manager after the cache entry
    was emplaced, or success. *)
Lemma disassemble_fresh env Sym st :
  find (MCDisassembledSymbols st) Sym = None ->
  (exists e, disassemble env Sym st = (Failure e, st))
  \/ (exists e, targetInfoOf env Sym = Failure e
                /\ disassemble env Sym st = (Failure e, emplaceDisassembled Sym st))
  \/ (exists TI ISA Dev Host Is As st',
        targetInfoOf env Sym = Success TI
        /\ getLoadedSymbolContents env Sym = Success Dev
        /\ convertToHostEquivalent env Dev = Success Host
        /\ disassembleCode env ISA (bytes Host) = Success (Is, As)
        /\ disassemble env Sym st
           = (Success (mkInstrRef (NextAlloc st)
                         (loopRecords Sym (data Dev) Is As (data Dev))), st')
        /\ MCDisassembledSymbols st'
           = MCDisassembledSymbols st
             ++ [(clone Sym, (NextAlloc st,
                              loopRecords Sym (data Dev) Is As (data Dev)))]
        /\ LiftedKernelSymbols st' = LiftedKernelSymbols st
        /\ NextAlloc st' = NextAlloc st + 1
        /\ forall lco T,
             isAddressDirectBranchTarget st' lco T = true
             <-> isAddressDirectBranchTarget st lco T = true
                 \/ (lco = BackingLCO Sym
                     /\ exists rec,
                          rec ∈ loopRecords Sym (data Dev) Is As (data Dev)
                          /\ branchTarget env TI rec = Some T)).
Proof.
  intros Hf.
  unfold disassemble, targetInfoOf, contains. rewrite Hf. simpl negb. cbv iota.
  unfold bind, returnOnError, modify, getLoadedCodeObject.
  destruct (getAssociatedObjectFile env (BackingLCO Sym)) as [ObjFile|e];
    [|left; eauto].
  destruct (getObjectFileTargetTuple env ObjFile) as [LLVMIsa|e]; [|left; eauto].
  destruct (isaFromLLVM env LLVMIsa) as [ISA|e]; [|left; eauto].
  destruct (getLoadedSymbolContents env Sym) as [Dev|e] eqn:EDev; [|left; eauto].
  destruct (convertToHostEquivalent env Dev) as [Host|e] eqn:EHost; [|left; eauto].
  destruct (disassembleCode env ISA (bytes Host)) as [[Is As]|e] eqn:EDis;
    [|left; eauto].
  destruct (getTargetInfo env ISA) as [TI|e]; [|right; left; eauto].
  right; right. simpl fst; simpl snd.
  assert (Hclone : find (MCDisassembledSymbols st) (clone Sym) = None).
  { rewrite <- Hf. apply find_eqb_key. rewrite eqb_clone_l. apply eqb_refl. }
  assert (Hem : MCDisassembledSymbols (emplaceDisassembled Sym st)
                = MCDisassembledSymbols st ++ [(clone Sym, (NextAlloc st, []))]).
  { unfold emplaceDisassembled; simpl. apply emplace_fresh, Hclone. }
  assert (HK : eqb (clone Sym) Sym = true).
  { rewrite eqb_clone_l. apply eqb_refl. }
  destruct (disassembleLoop_spec env TI Sym (BackingLCO Sym) (data Dev) Is As
              (data Dev) (emplaceDisassembled Sym st) _ _ _ _ Hem Hf HK)
    as (G1 & G2 & G3 & G4).
  simpl app in G1.
  eexists TI, ISA, Dev, Host, Is, As, _.
  split; [reflexivity|]. split; [reflexivity|]. split; [exact EHost|].
  split; [exact EDis|].
  split.
  { unfold findDisassembled. rewrite G1, find_app, Hf. simpl. rewrite HK.
    reflexivity. }
  split; [exact G1|]. split; [exact G2|]. split; [exact G3|]. exact G4.
Qed.

Lemma disassemble_extends env Sym st : extends st (disassemble env Sym st).2.
Proof.
  destruct (find (MCDisassembledSymbols st) Sym) as [v|] eqn:Hf.
  - rewrite (disassemble_cached env Sym st v Hf). apply extends_refl.
  - destruct (disassemble_fresh env Sym st Hf)
      as [[e ->]|[[e [_ ->]]|(TI & ISA & Dev & Host & Is & As & st' & H)]].
    + apply extends_refl.
    + split; simpl.
      * unfold emplace. destruct (contains _ _).
        -- exists []. rewrite app_nil_r. reflexivity.
        -- eexists. reflexivity.
      * exists []. rewrite app_nil_r. reflexivity.
    + destruct H as (_ & _ & _ & _ & -> & H1 & H2 & _). split; simpl.
      * eexists. exact H1.
      * exists []. rewrite app_nil_r. exact H2.
Qed.

Lemma disassemble_keeps_lifted env Sym st :
  LiftedKernelSymbols (disassemble env Sym st).2 = LiftedKernelSymbols st.
Proof.
  destruct (find (MCDisassembledSymbols st) Sym) as [v|] eqn:Hf.
  - rewrite (disassemble_cached env Sym st v Hf). reflexivity.
  - destruct (disassemble_fresh env Sym st Hf)
      as [[e ->]|[[e [_ ->]]|(TI & ISA & Dev & Host & Is & As & st' & H)]];
      try reflexivity.
    destruct H as (_ & _ & _ & _ & -> & _ & H2 & _). exact H2.
Qed.

Lemma disassemble_success_find env Sym st r st' :
  disassemble env Sym st = (Success r, st') ->
  find (MCDisassembledSymbols st') Sym = Some (vector r, elems r).
Proof.
  intros H.
  destruct (find (MCDisassembledSymbols st) Sym) as [v|] eqn:Hf.
  - rewrite (disassemble_cached env Sym st v Hf) in H. injection H as <- <-.
    simpl. rewrite Hf. destruct v; reflexivity.
  - destruct (disassemble_fresh env Sym st Hf)
      as [[e E]|[[e [_ E]]|(TI & ISA & Dev & Host & Is & As & st'' & G)]];
      try (rewrite E in H; discriminate).
    destruct G as (_ & _ & _ & _ & E & H1 & _). rewrite E in H.
    injection H as <- <-. rewrite H1, find_app, Hf. simpl.
    rewrite eqb_clone_l, eqb_refl. reflexivity.
Qed.

Lemma disassembleAll_extends env funcs :
  forall st, extends st (disassembleAll env funcs st).2
             /\ LiftedKernelSymbols (disassembleAll env funcs st).2
                = LiftedKernelSymbols st.
Proof.
  induction funcs as [|F funcs IH]; intros st; simpl.
  - split; [apply extends_refl|reflexivity].
  - unfold bind.
    pose proof (disassemble_extends env F st) as He.
    pose proof (disassemble_keeps_lifted env F st) as Hl.
    destruct (disassemble env F st) as [[r|e] st1]; simpl in *; [|auto].
    destruct (IH st1) as [He1 Hl1].
    destruct (disassembleAll env funcs st1) as [[rs|e] st2]; simpl in *.
    + split; [eapply extends_trans; eauto|congruence].
    + split; [eapply extends_trans; eauto|congruence].
Qed.

Lemma lift_cached env K st r :
  find (LiftedKernelSymbols st) K = Some r -> lift env K st = (Success r, st).
Proof. intros H. unfold lift. rewrite H. reflexivity. Qed.

(** A lift that misses the cache either fails, leaving the lift cache as it
    was, or succeeds with a new last entry for the kernel. *)
Lemma lift_fresh env K st :
  find (LiftedKernelSymbols st) K = None ->
  extends st (lift env K st).2
  /\ forall r, (lift env K st).1 = Success r ->
               find (LiftedKernelSymbols (lift env K st).2) K = Some r.
Proof.
  intros Hf. unfold lift. rewrite Hf. unfold bind, returnOnError.
  destruct (getDeviceFunctionSymbols env (getLoadedCodeObject K)) as [DF|e];
    [|split; [apply extends_refl|discriminate]].
  destruct (disassembleAll_extends env (K :: DF) st) as [He Hl].
  destruct (disassembleAll env (K :: DF) st) as [[Records|e] st1];
    cbn [fst snd] in He, Hl; [|split; [exact He|discriminate]].
  destruct (buildLiftedRepresentation env K Records) as [LR|e];
    [|split; [exact He|discriminate]].
  assert (Hclone : find (LiftedKernelSymbols st1) (clone K) = None).
  { rewrite Hl, <- Hf. apply find_eqb_key. rewrite eqb_clone_l. apply eqb_refl. }
  unfold insertLifted. rewrite (emplace_fresh _ _ _ Hclone). cbn [fst snd]. split.
  - eapply extends_trans; [exact He|]. split; cbn.
    + exists []. rewrite app_nil_r. reflexivity.
    + eexists. reflexivity.
  - intros r. cbn [LiftedKernelSymbols].
    destruct (find (LiftedKernelSymbols st1 ++ _) K) as [r'|]; [|discriminate].
    intros H. injection H as H. rewrite H. reflexivity.
Qed.

Lemma lift_extends env K st : extends st (lift env K st).2.
Proof.
  destruct (find (LiftedKernelSymbols st) K) as [r|] eqn:Hf.
  - rewrite (lift_cached env K st r Hf). apply extends_refl.
  - apply lift_fresh, Hf.
Qed.

Lemma lift_success_find env K st r st' :
  lift env K st = (Success r, st') -> find (LiftedKernelSymbols st') K = Some r.
Proof.
  intros H.
  destruct (find (LiftedKernelSymbols st) K) as [r0|] eqn:Hf.
  - rewrite (lift_cached env K st r0 Hf) in H. injection H as <- <-. exact Hf.
  - destruct (lift_fresh env K st Hf) as [_ G]. rewrite H in G. apply G. reflexivity.
Qed.

Lemma exec_extends env c st : extends st (exec env c st).2.
Proof.
  destruct c as [Sym|K]; simpl; unfold bind, ret.
  - pose proof (disassemble_extends env Sym st) as H.
    destruct (disassemble env Sym st) as [[r|e] st']; exact H.
  - pose proof (lift_extends env K st) as H.
    destruct (lift env K st) as [[r|e] st']; exact H.
Qed.

Lemma run_extends calls : forall st, extends st (run calls st).
Proof.
  induction calls as [|[env c] calls IH]; intros st; simpl.
  - apply extends_refl.
  - eapply extends_trans; [apply exec_extends|apply IH].
Qed.

(** Once a call has succeeded, the same call on any state that extends the
    resulting one is answered from the cache. *)
Lemma exec_again env c st r st' :
  exec env c st = (Success r, st') ->
  forall st'' env', extends st' st'' -> exec env' c st'' = (Success r, st'').
Proof.
  intros H st'' env' He. destruct c as [Sym|K]; simpl in *; unfold bind, ret in *.
  - destruct (disassemble env Sym st) as [[r0|e] st0] eqn:E; [|discriminate].
    injection H as <- <-.
    apply disassemble_success_find in E.
    rewrite (disassemble_cached env' Sym st'' _
               (extends_find_disassembled _ _ _ _ He E)).
    destruct r0; reflexivity.
  - destruct (lift env K st) as [[r0|e] st0] eqn:E; [|discriminate].
    injection H as <- <-.
    apply lift_success_find in E.
    rewrite (lift_cached env' K st'' _ (extends_find_lifted _ _ _ _ He E)).
    reflexivity.
Qed.

(** C4. Once [disassemble(S)] (or [lift(K)]) has succeeded, every later call
    for the same symbol, after any sequence of further disassemble and lift
    calls, returns the same reference (the same cached object at the same
    address, with the same contents), leaves the lifter's state as it is and
    does not depend on the disassembler or the backend any more: the work is
    done on the first call only. *)
Theorem cached_reference_stable env c st r st' calls env' :
  exec env c st = (Success r, st') ->
  exec env' c (run calls st') = (Success r, run calls st').
Proof.
  intros H. eapply exec_again; [exact H|apply run_extends].
Qed.

Lemma branchTarget_Some env TI rec T :
  branchTarget env TI rec = Some T
  <-> isBranch env TI (Opcode (Inst rec)) = true
      /\ evaluateBranch env (Inst rec) (LoadedDeviceAddress rec) (Size rec) = Some T.
Proof.
  unfold branchTarget. destruct (isBranch env TI (Opcode (Inst rec))); split.
  - auto.
  - intros [_ H]. exact H.
  - discriminate.
  - intros [H _]. discriminate.
Qed.

(** The record the loop pushes in iteration [i], from the decoder's
    [i]-th instruction and address. *)
Lemma loopRecords_lookup Sym Base Is :
  forall As Prev i rec,
    loopRecords Sym Base Is As Prev !! i = Some rec
    <-> exists Ins,
          Is !! i = Some Ins /\ (i < length As)%nat
          /\ rec = mkInstr Ins Sym (Lifter2.addressAt Base As i)
                     (wrap64 (Lifter2.addressAt Base As i
                              - match i with
                                | O => Prev
                                | S j => Lifter2.addressAt Base As j
                                end)).
Proof.
  induction Is as [|Ins0 Is IH]; intros As Prev i rec.
  - simpl. split; [discriminate|]. intros (Ins & H & _). discriminate.
  - destruct As as [|A As].
    + simpl. split; [discriminate|]. intros (Ins & _ & H & _). simpl in H. lia.
    + cbn [loopRecords]. destruct i as [|i].
      * simpl. unfold Lifter2.addressAt. simpl. split.
        -- intros H. injection H as <-. exists Ins0.
           split; [reflexivity|]. split; [lia|reflexivity].
        -- intros (Ins & H & _ & ->). injection H as ->. reflexivity.
      * change ((mkInstr Ins0 Sym (wrap64 (A + Base))
                   (wrap64 (wrap64 (A + Base) - Prev))
                 :: loopRecords Sym Base Is As (wrap64 (A + Base))) !! S i)
          with (loopRecords Sym Base Is As (wrap64 (A + Base)) !! i).
        rewrite IH.
        assert (Ha : forall j, Lifter2.addressAt Base (A :: As) (S j)
                               = Lifter2.addressAt Base As j) by reflexivity.
        assert (Hp : match i with
                     | O => wrap64 (A + Base)
                     | S j => Lifter2.addressAt Base As j
                     end = Lifter2.addressAt Base (A :: As) i).
        { destruct i; [reflexivity|]. rewrite Ha. reflexivity. }
        rewrite Hp, Ha. simpl length. split.
        -- intros (Ins & H1 & H2 & H3). exists Ins.
           split; [exact H1|]. split; [lia|exact H3].
        -- intros (Ins & H1 & H2 & H3). exists Ins.
           split; [exact H1|]. split; [lia|exact H3].
Qed.

(** A first, successful [disassemble]: the decoder's answer, the target
    description, and the branch-target sets afterwards. *)
Lemma disassemble_fresh_targets env Sym st r st' :
  find (MCDisassembledSymbols st) Sym = None ->
  disassemble env Sym st = (Success r, st') ->
  exists TI Dev Is As,
    targetInfoOf env Sym = Success TI
    /\ Lifter2.decoded env Sym = Some (Dev, Is, As)
    /\ forall lco T,
         isAddressDirectBranchTarget st' lco T = true
         <-> isAddressDirectBranchTarget st lco T = true
             \/ (lco = BackingLCO Sym
                 /\ exists rec,
                      rec ∈ loopRecords Sym (data Dev) Is As (data Dev)
                      /\ branchTarget env TI rec = Some T).
Proof.
  intros Hf.
  unfold disassemble, targetInfoOf, Lifter2.decoded, contains. rewrite Hf.
  simpl negb. cbv iota.
  unfold bind, returnOnError, modify, getLoadedCodeObject.
  destruct (getAssociatedObjectFile env (BackingLCO Sym)) as [ObjFile|e];
    [|discriminate].
  destruct (getObjectFileTargetTuple env ObjFile) as [LLVMIsa|e]; [|discriminate].
  destruct (isaFromLLVM env LLVMIsa) as [ISA|e]; [|discriminate].
  destruct (getLoadedSymbolContents env Sym) as [Dev|e]; [|discriminate].
  destruct (convertToHostEquivalent env Dev) as [Host|e]; [|discriminate].
  destruct (disassembleCode env ISA (bytes Host)) as [[Is As]|e]; [|discriminate].
  destruct (getTargetInfo env ISA) as [TI|e]; [|discriminate].
  cbn [fst snd].
  assert (Hclone : find (MCDisassembledSymbols st) (clone Sym) = None).
  { rewrite <- Hf. apply find_eqb_key. rewrite eqb_clone_l. apply eqb_refl. }
  assert (Hem : MCDisassembledSymbols (emplaceDisassembled Sym st)
                = MCDisassembledSymbols st ++ [(clone Sym, (NextAlloc st, []))]).
  { unfold emplaceDisassembled; simpl. apply emplace_fresh, Hclone. }
  assert (HK : eqb (clone Sym) Sym = true).
  { rewrite eqb_clone_l. apply eqb_refl. }
  destruct (disassembleLoop_spec env TI Sym (BackingLCO Sym) (data Dev) Is As
              (data Dev) (emplaceDisassembled Sym st) _ _ _ _ Hem Hf HK)
    as (G1 & _ & _ & G4).
  simpl app in G1.
  unfold findDisassembled. rewrite G1, find_app, Hf. simpl. rewrite HK.
  intros H. injection H as _ <-.
  exists TI, Dev, Is, As. split; [reflexivity|]. split; [reflexivity|].
  exact G4.
Qed.

(** C7. After a successful [disassemble(S)], an address is in an LCO's
    Direct-Branch Target Set exactly when it was there before, or the call
    disassembled [S] (it was not cached), the LCO is the one of [S], and the
    address is the target [evaluateBranch] computed for some instruction the
    decoder returned that the instruction table classifies as a branch,
    evaluated at the address and size the loop computes for it.  So every
    such target is recorded, and instructions that are not branches, or whose
    target is not evaluated, add nothing. *)
Theorem direct_branch_targets_recorded env Sym st r st' :
  disassemble env Sym st = (Success r, st') ->
  forall LCO T,
    isAddressDirectBranchTarget st' LCO T = true
    <-> isAddressDirectBranchTarget st LCO T = true
        \/ (contains (MCDisassembledSymbols st) Sym = false
            /\ LCO = getLoadedCodeObject Sym
            /\ exists TargetInfo Dev Is As i Ins,
                 targetInfoOf env Sym = Success TargetInfo
                 /\ Lifter2.decoded env Sym = Some (Dev, Is, As)
                 /\ Is !! i = Some Ins
                 /\ (i < length As)%nat
                 /\ isBranch env TargetInfo (Opcode Ins) = true
                 /\ evaluateBranch env Ins
                      (Lifter2.addressAt (data Dev) As i)
                      (Lifter2.sizeAt (data Dev) As i) = Some T).
Proof.
  intros H LCO T.
  destruct (find (MCDisassembledSymbols st) Sym) as [v|] eqn:Hf.
  - rewrite (disassemble_cached env Sym st v Hf) in H. injection H as <- <-.
    split; [auto|]. intros [G|[G _]]; [exact G|].
    apply contains_false in G. congruence.
  - destruct (disassemble_fresh_targets env Sym st r st' Hf H)
      as (TI & Dev & Is & As & HTI & Hd & G).
    rewrite G. split.
    + intros [G1|[-> [rec [Hin Hb]]]]; [auto|]. right.
      split; [apply contains_false, Hf|]. split; [reflexivity|].
      apply list_elem_of_lookup in Hin as [i Hi].
      apply loopRecords_lookup in Hi as (Ins & Hi & Hlen & ->).
      apply branchTarget_Some in Hb as [Hb1 Hb2]. cbn [Inst Opcode] in Hb1.
      cbn [Inst LoadedDeviceAddress Size] in Hb2.
      exists TI, Dev, Is, As, i, Ins.
      split; [exact HTI|]. split; [exact Hd|]. split; [exact Hi|].
      split; [exact Hlen|]. split; [exact Hb1|].
      unfold Lifter2.sizeAt, Lifter2.prevInstAddressAt. exact Hb2.
    + intros [G1|(_ & -> & TI' & Dev' & Is' & As' & i & Ins
                  & HTI' & Hd' & Hi & Hlen & Hb1 & Hb2)]; [auto|].
      right. split; [reflexivity|].
      rewrite HTI in HTI'. injection HTI' as <-.
      rewrite Hd in Hd'. injection Hd' as <- <- <-.
      exists (mkInstr Ins Sym (Lifter2.addressAt (data Dev) As i)
                (Lifter2.sizeAt (data Dev) As i)).
      split.
      * apply list_elem_of_lookup. exists i. apply loopRecords_lookup.
        exists Ins. split; [exact Hi|]. split; [exact Hlen|reflexivity].
      * apply branchTarget_Some. cbn [Inst Opcode LoadedDeviceAddress Size].
        split; [exact Hb1|exact Hb2].
Qed.

End DisassemblyFacts.

(** ** Disassembly on the concrete kernel *)

Section ScenarioFacts.
Import LCOSymbol Lifter Scenario.

Lemma cached_reference_stable_witness :
  let first := exec services (CallDisassemble K0) emptyLifter in
  let later := run [(services, CallLift K0);
                    (servicesWithoutTarget, CallDisassemble K0)] first.2 in
  exists r,
    first = (Success r, first.2)
    /\ exec servicesWithoutTarget (CallDisassemble K0) later = (Success r, later).
Proof.
  intros first later. eexists. split.
  - vm_compute. reflexivity.
  - apply (cached_reference_stable services (CallDisassemble K0) emptyLifter).
    vm_compute. reflexivity.
Defined.

Lemma direct_branch_targets_recorded_witness :
  let first := disassemble services K0 emptyLifter in
  exists r,
    first = (Success r, first.2)
    /\ isAddressDirectBranchTarget emptyLifter 7 4104 = false
    /\ isAddressDirectBranchTarget first.2 7 4104 = true.
Proof.
  intros first. eexists. split; [vm_compute; reflexivity|].
  split; [reflexivity|].
  apply (direct_branch_targets_recorded services K0 emptyLifter _ first.2 eq_refl).
  right. split; [reflexivity|]. split; [reflexivity|].
  exists 5, (mkByteRange 4096 code),
    [mkMCInst S_MOV_B32 [0; 16]; mkMCInst S_BRANCH [0]; mkMCInst S_ENDPGM []],
    [0; 4; 8], 1%nat, (mkMCInst S_BRANCH [0]).
  split; [reflexivity|]. split; [reflexivity|]. split; [reflexivity|].
  split; [simpl; lia|]. split; [reflexivity|]. vm_compute. reflexivity.
Defined.

(** The three-instruction kernel of the scenario: the branch target, the
    address of [s_endpgm], is recorded, and the address of the branch is not. *)
Example scenario_branch_target :
  let st := (disassemble services K0 emptyLifter).2 in
  isAddressDirectBranchTarget st 7 4104 = true
  /\ isAddressDirectBranchTarget st 7 4100 = false
  /\ isAddressDirectBranchTarget st 8 4104 = false.
Proof. vm_compute. auto. Qed.

(** In every record the loop stores the distance from the previous
    instruction's address, so the sizes add up (modulo 2^64) to the distance
    from the start to the last instruction's address, not to the end of the
    symbol. *)
Lemma record_sizes_sum_to_last_address Sym Base Is :
  forall As Prev,
    0 <= Prev < 2 ^ 64 ->
    wrap64 (Prev + fold_right Z.add 0
                     (map Size (loopRecords Sym Base Is As Prev)))
    = fold_left (fun _ rec => LoadedDeviceAddress rec)
        (loopRecords Sym Base Is As Prev) Prev.
Proof.
  induction Is as [|Ins Is IH]; intros As Prev HP; simpl.
  - rewrite Z.add_0_r. apply wrap64_small, HP.
  - destruct As as [|A As]; simpl.
    { rewrite Z.add_0_r. apply wrap64_small, HP. }
    set (Address := wrap64 (A + Base)).
    rewrite <- (IH As Address (wrap64_range _)).
    set (rest := fold_right Z.add 0 _).
    set (Size0 := wrap64 (Address - Prev)).
    unfold wrap64. unfold Size0, wrap64.
    replace (Prev + ((Address - Prev) mod 2 ^ 64 + rest))
      with ((Address - Prev) mod 2 ^ 64 + (Prev + rest)) by lia.
    rewrite Z.add_mod_idemp_l by lia.
    f_equal. lia.
Qed.

(** The first record of a function whose first instruction is at offset 0
    gets size 0. *)
Lemma first_record_has_size_zero Sym Base Ins Is As :
  0 <= Base < 2 ^ 64 ->
  map Size (firstn 1 (loopRecords Sym Base (Ins :: Is) (0 :: As) Base)) = [0].
Proof.
  intros HB. cbn [loopRecords firstn map Size].
  rewrite Z.add_0_l, (wrap64_small Base HB), Z.sub_diag. reflexivity.
Qed.

(** C1 (the code departs from the claim). On the three-instruction kernel,
    twelve bytes long with instructions at offsets 0, 4 and 8, [disassemble]
    succeeds and returns records of sizes 0, 4 and 4: the first size is not
    positive, no size is the distance to the next instruction, and the sizes
    add up to 8, not to the symbol's size 12. *)
Theorem disassemble_sizes_lag_one_instruction :
  exists r Dev,
    disassemble services K0 emptyLifter = (Success r, (disassemble services K0 emptyLifter).2)
    /\ getLoadedSymbolContents services K0 = Success Dev
    /\ length (bytes Dev) = 12%nat
    /\ map LoadedDeviceAddress (elems r) = [4096; 4100; 4104]
    /\ map Size (elems r) = [0; 4; 4]
    /\ fold_right Z.add 0 (map Size (elems r)) = 8.
Proof.
  eexists. eexists. split; [vm_compute; reflexivity|].
  split; [reflexivity|]. vm_compute. auto.
Qed.

(** How a failing [disassemble] leaves the lifter: untouched, or with an empty
    cache entry for the symbol, which every later call then returns as the
    symbol's instructions. *)
Lemma disassemble_failure_state env Sym st e st' :
  disassemble env Sym st = (Failure e, st') ->
  st' = st
  \/ (find (MCDisassembledSymbols st) Sym = None
      /\ targetInfoOf env Sym = Failure e
      /\ st' = emplaceDisassembled Sym st
      /\ forall env',
           disassemble env' Sym st' = (Success (mkInstrRef (NextAlloc st) []), st')).
Proof.
  intros H.
  destruct (find (MCDisassembledSymbols st) Sym) as [v|] eqn:Hf.
  - rewrite (disassemble_cached env Sym st v Hf) in H. discriminate.
  - destruct (disassemble_fresh env Sym st Hf)
      as [[e' E]|[[e' [HT E]]|(TI & ISA & Dev & Host & Is & As & st'' & G)]].
    + rewrite E in H. injection H as _ <-. left. reflexivity.
    + rewrite E in H. injection H as <- <-. right.
      split; [reflexivity|]. split; [exact HT|]. split; [reflexivity|].
      intros env'.
      assert (Hclone : find (MCDisassembledSymbols st) (clone Sym) = None).
      { rewrite <- Hf. apply find_eqb_key. rewrite eqb_clone_l. apply eqb_refl. }
      apply (disassemble_cached env' Sym (emplaceDisassembled Sym st)
               (NextAlloc st, [])).
      unfold emplaceDisassembled; cbn [MCDisassembledSymbols].
      rewrite (emplace_fresh _ _ _ Hclone), find_app, Hf. simpl.
      rewrite eqb_clone_l, eqb_refl. reflexivity.
    + destruct G as (_ & _ & _ & _ & E & _). rewrite E in H. discriminate.
Qed.


End ScenarioFacts.

(** ** The preset map *)

Section LoaderFacts.
Import Loader.

Lemma StringMap_insert_lookup (m : gmap string Z) k v k' :
  StringMap_insert m k v !! k'
  = match m !! k' with
    | Some x => Some x
    | None => if decide (k = k') then Some v else None
    end.
Proof.
  unfold StringMap_insert. destruct (m !! k) as [x|] eqn:E.
  - destruct (m !! k') as [y|] eqn:E'; [reflexivity|].
    destruct (decide (k = k')) as [->|]; [congruence|reflexivity].
  - rewrite lookup_insert. destruct (decide (k = k')) as [->|].
    + rewrite E. reflexivity.
    + destruct (m !! k'); reflexivity.
Qed.

Lemma StringMap_insert_present (m : gmap string Z) k v x :
  m !! k = Some x -> StringMap_insert m k v = m.
Proof. intros H. unfold StringMap_insert. rewrite H. reflexivity. Qed.

(** The entry for [(K, P)] after one registration attempt. *)
Lemma registered_register r L K P :
  registered (register r L) K P
  = match registered L K P with
    | Some IK => Some IK
    | None =>
        if decide (OriginalKernel r = K /\ Preset r = P)
        then Some (InstrumentedKernel r) else None
    end.
Proof.
  unfold registered, register, insertInstrumentedKernelIntoMap.
  cbn [OriginalToInstrumentedKernelsMap].
  destruct (decide (OriginalKernel r = K)) as [<-|Hne].
  - rewrite lookup_insert_eq.
    assert (Hin : default ∅
              (match OriginalToInstrumentedKernelsMap L !! OriginalKernel r with
               | Some _ => OriginalToInstrumentedKernelsMap L
               | None => <[OriginalKernel r := ∅]>
                           (OriginalToInstrumentedKernelsMap L)
               end !! OriginalKernel r)
            = default ∅ (OriginalToInstrumentedKernelsMap L !! OriginalKernel r)).
    { destruct (OriginalToInstrumentedKernelsMap L !! OriginalKernel r) eqn:E.
      - rewrite E. reflexivity.
      - rewrite lookup_insert_eq. reflexivity. }
    rewrite Hin, StringMap_insert_lookup.
    destruct (OriginalToInstrumentedKernelsMap L !! OriginalKernel r) as [m|];
      simpl.
    + destruct (m !! P); [reflexivity|].
      destruct (decide (Preset r = P)); destruct (decide (_ /\ _)) as [[_ ?]|Hn];
        try reflexivity; try contradiction.
      exfalso. apply Hn. auto.
    + rewrite lookup_empty.
      destruct (decide (Preset r = P)); destruct (decide (_ /\ _)) as [[_ ?]|Hn];
        try reflexivity; try contradiction.
      exfalso. apply Hn. auto.
  - rewrite lookup_insert_ne by exact Hne.
    assert (Hk : match OriginalToInstrumentedKernelsMap L !! OriginalKernel r with
                 | Some _ => OriginalToInstrumentedKernelsMap L
                 | None => <[OriginalKernel r := ∅]>
                             (OriginalToInstrumentedKernelsMap L)
                 end !! K = OriginalToInstrumentedKernelsMap L !! K).
    { destruct (OriginalToInstrumentedKernelsMap L !! OriginalKernel r);
        [reflexivity|]. apply lookup_insert_ne, Hne. }
    rewrite Hk.
    destruct (OriginalToInstrumentedKernelsMap L !! K) as [m|].
    + destruct (m !! P); [reflexivity|].
      destruct (decide (_ /\ _)) as [[? _]|]; [contradiction|reflexivity].
    + destruct (decide (_ /\ _)) as [[? _]|]; [contradiction|reflexivity].
Qed.

Lemma registered_register_Some r L K P IK :
  registered L K P = Some IK -> registered (register r L) K P = Some IK.
Proof. intros H. rewrite registered_register, H. reflexivity. Qed.

Lemma registered_registerAll_Some rs :
  forall L K P IK,
    registered L K P = Some IK -> registered (registerAll rs L) K P = Some IK.
Proof.
  induction rs as [|r rs IH]; intros L K P IK H; simpl; [exact H|].
  apply IH, registered_register_Some, H.
Qed.

Lemma metadata_registerAll rs :
  forall L, InstrumentedKernelMetadata (registerAll rs L)
            = InstrumentedKernelMetadata L.
Proof.
  induction rs as [|r rs IH]; intros L; simpl; [reflexivity|].
  rewrite IH. reflexivity.
Qed.

(** A registration attempt for a pair that has an entry leaves the preset map
    as it is. *)
Lemma register_present_unchanged r L IK :
  registered L (OriginalKernel r) (Preset r) = Some IK ->
  OriginalToInstrumentedKernelsMap (register r L)
  = OriginalToInstrumentedKernelsMap L.
Proof.
  unfold registered, register, insertInstrumentedKernelIntoMap.
  cbn [OriginalToInstrumentedKernelsMap].
  destruct (OriginalToInstrumentedKernelsMap L !! OriginalKernel r) as [m|] eqn:E;
    [|discriminate].
  intros H. rewrite E. simpl. rewrite (StringMap_insert_present _ _ _ _ H).
  apply insert_id, E.
Qed.

(** C2. After any registration attempt for [(K, P)], the pair has exactly one
    instrumented kernel [IK] (the attempt's own if the pair was free); after
    any further registration attempts the pair still maps to [IK],
    [getInstrumentedKernel(K, P)] still returns the same symbol and metadata,
    and a later attempt for the same pair leaves the preset map unchanged. *)
Theorem preset_registered_once (L : ToolExecutableLoader) (r : Registration)
    (rs : list Registration) :
  let K := OriginalKernel r in
  let P := Preset r in
  let L1 := register r L in
  exists IK,
    registered L1 K P = Some IK
    /\ (registered L K P = None -> IK = InstrumentedKernel r)
    /\ registered (registerAll rs L1) K P = Some IK
    /\ getInstrumentedKernel (registerAll rs L1) K P = getInstrumentedKernel L1 K P
    /\ forall r',
         OriginalKernel r' = K -> Preset r' = P ->
         OriginalToInstrumentedKernelsMap (register r' (registerAll rs L1))
         = OriginalToInstrumentedKernelsMap (registerAll rs L1).
Proof.
  intros K P L1.
  assert (H1 : exists IK, registered L1 K P = Some IK
                          /\ (registered L K P = None -> IK = InstrumentedKernel r)).
  { unfold L1. rewrite registered_register.
    destruct (registered L K P) as [IK|].
    - exists IK. split; [reflexivity|discriminate].
    - destruct (decide (OriginalKernel r = K /\ Preset r = P)) as [_|Hn].
      + exists (InstrumentedKernel r). auto.
      + exfalso. apply Hn. auto. }
  destruct H1 as (IK & H1 & H2). exists IK.
  pose proof (registered_registerAll_Some rs L1 K P IK H1) as H3.
  split; [exact H1|]. split; [exact H2|]. split; [exact H3|]. split.
  - unfold getInstrumentedKernel. rewrite H3, H1, metadata_registerAll.
    reflexivity.
  - intros r' HK HP. apply (register_present_unchanged r' _ IK).
    rewrite HK, HP. exact H3.
Qed.

(** ** Dispatch-packet rewriting *)






(** The assumption on the registrations cannot be dropped in this model: with
    kernel 1 instrumented under p as kernel 2 and kernel 2 itself instrumented
    under p as kernel 3, a first application points the packet at kernel 2
    and a second one at kernel 3. *)
Example reinstrumented_kernel_moves_packet_on :
  let first :=
    overrideWithInstrumented Scenario.kernelOfDescriptor Scenario.descriptorOf
      Scenario.chainedLoader Scenario.packet "p" in
  let second :=
    overrideWithInstrumented Scenario.kernelOfDescriptor Scenario.descriptorOf
      Scenario.chainedLoader first.2 "p" in
  kernel_object first.2 = 1002 /\ kernel_object second.2 = 1003.
Proof. vm_compute. auto. Qed.


End LoaderFacts.


(** ** Invalidation on executable destruction *)

Section InvalidationFacts.
Import LCOSymbol Lifter COCache.

Lemma eqb_same_LCO K S : eqb K S = true -> BackingLCO K = BackingLCO S.
Proof. intros H. apply eqb_key in H. unfold key in H. congruence. Qed.

Lemma invalidated_find {V} (m : list (LoadedCodeObjectSymbol * V)) LCOs S :
  BackingLCO S ∈ LCOs ->
  find (List.filter (fun e => negb (belongsTo LCOs e.1)) m) S = None.
Proof.
  intros H. apply (find_filter_None m (fun K => negb (belongsTo LCOs K))).
  intros K HK. unfold belongsTo. rewrite (eqb_same_LCO K S HK).
  rewrite bool_decide_eq_true_2 by exact H. reflexivity.
Qed.

Lemma invalidated_entries {V} (m : list (LoadedCodeObjectSymbol * V)) LCOs e :
  e ∈ List.filter (fun e => negb (belongsTo LCOs e.1)) m ->
  BackingLCO e.1 ∉ LCOs.
Proof.
  intros H. apply list_elem_of_In, filter_In in H as [_ H].
  unfold belongsTo in H. apply negb_true_iff, bool_decide_eq_false in H. exact H.
Qed.

(** C3. After the executable-destroy callback for [Exec], for every loaded
    code object of [Exec]: [isCached] is false; the cache's queries fail with
    the cache-miss error; neither the disassembly cache nor the lift cache
    holds an entry for a symbol of it; and a [disassemble] or [lift] of such a
    symbol, served by the cache, fails with cache-miss and changes nothing. *)
Theorem destroyed_executable_invalidated (loadedCodeObjectsOf : Z -> list Z)
    (Exec : Z) (s : Core) (LCO : Z) :
  LCO ∈ loadedCodeObjectsOf Exec ->
  let s' := executableDestroyCallback loadedCodeObjectsOf Exec s in
  isCached (CodeObjects s') LCO = false
  /\ getAssociatedCodeObject (CodeObjects s') LCO = Failure cacheMiss
  /\ getAssociatedObjectFile (CodeObjects s') LCO = Failure cacheMiss
  /\ (forall e, e ∈ MCDisassembledSymbols (TheLifter s') -> BackingLCO e.1 <> LCO)
  /\ (forall e, e ∈ LiftedKernelSymbols (TheLifter s') -> BackingLCO e.1 <> LCO)
  /\ forall env Sym,
       BackingLCO Sym = LCO ->
       disassemble (servedBy (CodeObjects s') env) Sym (TheLifter s')
         = (Failure cacheMiss, TheLifter s')
       /\ lift (servedBy (CodeObjects s') env) Sym (TheLifter s')
         = (Failure cacheMiss, TheLifter s').
Proof.
  intros Hin s'.
  assert (Hl : LCOCache (CodeObjects s') !! LCO = None).
  { unfold s', executableDestroyCallback, hsaExecutableDestroyWrapper; simpl.
    apply lookup_foldr_delete, Hin. }
  assert (Hc : isCached (CodeObjects s') LCO = false).
  { unfold isCached. rewrite Hl. reflexivity. }
  split; [exact Hc|].
  split; [unfold getAssociatedCodeObject; rewrite Hl; reflexivity|].
  split; [unfold getAssociatedObjectFile; rewrite Hl; reflexivity|].
  split; [|split].
  - intros e He Heq. apply invalidated_entries in He. rewrite Heq in He.
    contradiction.
  - intros e He Heq. apply invalidated_entries in He. rewrite Heq in He.
    contradiction.
  - intros env Sym HS. split.
    + unfold disassemble, contains.
      assert (Hf : find (MCDisassembledSymbols (TheLifter s')) Sym = None).
      { apply invalidated_find. rewrite HS. exact Hin. }
      rewrite Hf. cbn [negb]. unfold bind, returnOnError, getLoadedCodeObject.
      cbn [servedBy getAssociatedObjectFile Lifter.getAssociatedObjectFile].
      rewrite HS. unfold getAssociatedObjectFile. rewrite Hl. reflexivity.
    + unfold lift.
      assert (Hf : find (LiftedKernelSymbols (TheLifter s')) Sym = None).
      { apply invalidated_find. rewrite HS. exact Hin. }
      rewrite Hf. unfold bind, returnOnError, getLoadedCodeObject.
      cbn [servedBy Lifter.getDeviceFunctionSymbols].
      rewrite HS, Hc. reflexivity.
Qed.

End InvalidationFacts.

(** Destroying executable 10 of the scenario, whose kernel had been lifted. *)
Lemma destroyed_executable_invalidated_witness :
  let s' := COCache.executableDestroyCallback Scenario.loadedCodeObjectsOf 10
              Scenario.core in
  COCache.isCached (COCache.CodeObjects Scenario.core) 7 = true
  /\ Lifter.contains (Lifter.LiftedKernelSymbols (COCache.TheLifter Scenario.core))
       Scenario.K0 = true
  /\ COCache.isCached (COCache.CodeObjects s') 7 = false
  /\ Lifter.lift (COCache.servedBy (COCache.CodeObjects s') Scenario.services)
       Scenario.K0 (COCache.TheLifter s')
     = (Failure COCache.cacheMiss, COCache.TheLifter s').
Proof.
  intros s'.
  split; [vm_compute; reflexivity|]. split; [vm_compute; reflexivity|].
  assert (Hin : 7 ∈ Scenario.loadedCodeObjectsOf 10) by (vm_compute; left).
  pose proof (destroyed_executable_invalidated Scenario.loadedCodeObjectsOf 10
                Scenario.core 7 Hin) as H.
  destruct H as (H1 & _ & _ & _ & _ & H2).
  split; [exact H1|]. apply (H2 Scenario.services Scenario.K0). reflexivity.
Defined.

(** ** Hook insertion *)

Section TaskFacts.
Import Task.

Lemma insertCallBefore_at d MI pre post :
  Original MI ∉ pre ->
  insertCallBefore d MI (pre ++ Original MI :: post)
  = pre ++ HookCall d :: Original MI :: post.
Proof.
  induction pre as [|it pre IH]; intros H; simpl.
  - rewrite Z.eqb_refl. reflexivity.
  - apply not_elem_of_cons in H as [H1 H2]. destruct it as [d'|MI'].
    + rewrite IH by exact H2. reflexivity.
    + destruct (Z.eqb_spec MI' MI) as [->|_]; [contradiction|].
      rewrite IH by exact H2. reflexivity.
Qed.

Lemma materialiseQueue_at MI queue :
  forall pre post,
    Original MI ∉ pre ->
    materialiseQueue MI queue (pre ++ Original MI :: post)
    = pre ++ map HookCall queue ++ Original MI :: post.
Proof.
  unfold materialiseQueue.
  induction queue as [|d queue IH]; intros pre post H; simpl; [reflexivity|].
  rewrite insertCallBefore_at by exact H.
  change (pre ++ HookCall d :: Original MI :: post)
    with (pre ++ [HookCall d] ++ Original MI :: post).
  rewrite app_assoc, IH.
  - rewrite <- app_assoc. reflexivity.
  - intros [Hin|Hin]%elem_of_app; [contradiction|].
    apply list_elem_of_singleton in Hin. discriminate.
Qed.

Lemma Original_in_payloads tasks MI done :
  Original MI ∈ flat_map (payloadThenTarget tasks) done -> MI ∈ done.
Proof.
  induction done as [|MI' done IH]; simpl; [intros H; inversion H|].
  unfold payloadThenTarget at 1.
  intros [[Hin|Hin]%elem_of_app|Hin]%elem_of_app.
  - apply list_elem_of_fmap in Hin as (d & Hd & _). discriminate.
  - apply list_elem_of_singleton in Hin. injection Hin as ->. left.
  - right. apply IH, Hin.
Qed.

Lemma materialise_steps tasks todo :
  forall done,
    NoDup (done ++ todo) ->
    fold_left (fun b MI => materialiseQueue MI (queueOf tasks MI) b) todo
      (flat_map (payloadThenTarget tasks) done ++ map Original todo)
    = flat_map (payloadThenTarget tasks) (done ++ todo).
Proof.
  induction todo as [|MI todo IH]; intros done HND; simpl.
  - rewrite !app_nil_r. reflexivity.
  - rewrite materialiseQueue_at.
    + specialize (IH (done ++ [MI])). rewrite <- app_assoc in IH. simpl in IH.
      rewrite <- (IH HND). f_equal.
      rewrite flat_map_app. simpl. unfold payloadThenTarget at 3.
      rewrite app_nil_r, <- !app_assoc. reflexivity.
    + intros Hin%Original_in_payloads.
      apply NoDup_app in HND as (_ & Hdisj & _).
      apply (Hdisj MI Hin). left.
Qed.

(** Materialisation puts, before every instruction of the block, the calls
    queued for it, in queue order. *)
Lemma materialise_spec tasks block :
  NoDup block ->
  materialise tasks block = flat_map (payloadThenTarget tasks) block.
Proof.
  intros H. unfold materialise.
  apply (materialise_steps tasks block [] H).
Qed.

Lemma materialise_around tasks pre MI post :
  NoDup (pre ++ MI :: post) ->
  materialise tasks (pre ++ MI :: post)
  = materialise tasks pre ++ map HookCall (queueOf tasks MI)
    ++ Original MI :: materialise tasks post.
Proof.
  intros H. pose proof H as H'.
  apply NoDup_app in H' as (Hpre & _ & Hpost%NoDup_cons_1_2).
  rewrite !materialise_spec by assumption.
  rewrite flat_map_app. simpl. unfold payloadThenTarget at 2.
  rewrite <- !app_assoc. reflexivity.
Qed.

(** C5. A successful [insertHookBefore(MI, hook, args)] appends one
    descriptor, with the hook's resolved name, to the queue of [MI] and
    touches no other queue.  In a block, the calls queued for [MI] are
    materialised in their enqueue order, after everything that belongs to the
    instructions before [MI] and immediately before [MI] itself, so nothing is
    ever placed after an instruction; and inserting before is the only
    mutating operation of a task. *)
Theorem hooks_materialised_in_enqueue_order (T : InstrumentationTask)
    (MI Hook : Z) (Args : list HookArg) (T' : InstrumentationTask) :
  insertHookBefore T MI Hook Args = (Success tt, T') ->
  exists Name,
    IM T !! Hook = Some Name
    /\ MI ∈ instructionsOf (LR T)
    /\ queueOf (HookInsertionTasks T') MI
       = queueOf (HookInsertionTasks T) MI ++ [mkDescriptor Name Args]
    /\ (forall MI', MI' <> MI ->
          queueOf (HookInsertionTasks T') MI' = queueOf (HookInsertionTasks T) MI')
    /\ (forall pre post,
          NoDup (pre ++ MI :: post) ->
          materialise (HookInsertionTasks T') (pre ++ MI :: post)
          = materialise (HookInsertionTasks T') pre
            ++ map HookCall (queueOf (HookInsertionTasks T) MI)
            ++ [HookCall (mkDescriptor Name Args)]
            ++ Original MI :: materialise (HookInsertionTasks T') post)
    /\ forall op : TaskOperation,
         exists MI0 Hook0 Args0,
           apply op = fun T0 => insertHookBefore T0 MI0 Hook0 Args0.
Proof.
  unfold insertHookBefore. intros H.
  destruct (bool_decide (MI ∈ instructionsOf (LR T))) eqn:Hin;
    cbn [negb] in H; [|discriminate].
  apply bool_decide_eq_true in Hin.
  destruct (IM T !! Hook) as [Name|]; [|discriminate].
  injection H as <-. exists Name. cbn [HookInsertionTasks].
  assert (Hq : queueOf
                 (<[MI := queueOf (HookInsertionTasks T) MI ++ [mkDescriptor Name Args]]>
                    (HookInsertionTasks T)) MI
               = queueOf (HookInsertionTasks T) MI ++ [mkDescriptor Name Args]).
  { unfold queueOf at 1. rewrite lookup_insert_eq. reflexivity. }
  split; [reflexivity|]. split; [exact Hin|]. split; [exact Hq|]. split; [|split].
  - intros MI' Hne. unfold queueOf. rewrite lookup_insert_ne by congruence.
    reflexivity.
  - intros pre post HND. rewrite (materialise_around _ _ _ _ HND), Hq.
    rewrite map_app, <- !app_assoc. reflexivity.
  - intros [MI0 Hook0 Args0]. exists MI0, Hook0, Args0. reflexivity.
Qed.

End TaskFacts.

(** A third hook before the branch of the scenario's kernel, on a task that
    already holds two hooks for it and one for the instruction after it. *)
Lemma hooks_materialised_in_enqueue_order_witness :
  let first :=
    Task.insertHookBefore Scenario.taskWithHooks 2 500 [Task.ConstantArg 42] in
  let a := Task.mkDescriptor "count_instruction" [Task.ConstantArg 1] in
  let b := Task.mkDescriptor "trace_branch" [Task.RegisterArg 7] in
  let c := Task.mkDescriptor "count_instruction" [Task.ConstantArg 42] in
  let e := Task.mkDescriptor "trace_branch" [] in
  first.1 = Success tt
  /\ Task.queueOf (Task.HookInsertionTasks Scenario.taskWithHooks) 2 = [a; b]
  /\ Task.queueOf (Task.HookInsertionTasks first.2) 2 = [a; b; c]
  /\ Task.queueOf (Task.HookInsertionTasks first.2) 3 = [e]
  /\ Task.materialise (Task.HookInsertionTasks first.2) [1; 2; 3]
     = [Task.Original 1;
        Task.HookCall a; Task.HookCall b; Task.HookCall c; Task.Original 2;
        Task.HookCall e; Task.Original 3].
Proof.
  intros first a b c e.
  destruct (hooks_materialised_in_enqueue_order Scenario.taskWithHooks 2 500
              [Task.ConstantArg 42] first.2)
    as (Name & HName & _ & Hq & Hother & Hm & _).
  { vm_compute. reflexivity. }
  assert (HN : Name = "count_instruction"%string).
  { vm_compute in HName. injection HName as <-. reflexivity. }
  subst Name.
  assert (Hold : Task.queueOf (Task.HookInsertionTasks Scenario.taskWithHooks) 2
                 = [a; b]) by (vm_compute; reflexivity).
  assert (HND : NoDup ([1] ++ 2 :: [3])).
  { apply (bool_decide_unpack _). vm_compute. exact Logic.I. }
  split; [vm_compute; reflexivity|]. split; [exact Hold|].
  split; [rewrite Hq, Hold; reflexivity|].
  split; [rewrite (Hother 3) by lia; vm_compute; reflexivity|].
  etransitivity; [exact (Hm [1] [3] HND)|].
  rewrite Hold. vm_compute. reflexivity.
Defined.

(** * Further properties of the code

    ** AQL packets *)

Section AqlMore.
Import Aql.

Variables HEADER_TYPE WIDTH_TYPE : Z.
Variables VENDOR_SPECIFIC KERNEL_DISPATCH BARRIER_AND BARRIER_OR AGENT_DISPATCH : Z.

Local Abbreviation packetType := (getPacketType HEADER_TYPE WIDTH_TYPE).
Local Abbreviation typeOf :=
  (accessorType VENDOR_SPECIFIC KERNEL_DISPATCH BARRIER_AND BARRIER_OR AGENT_DISPATCH).
Local Abbreviation accessor :=
  (access HEADER_TYPE WIDTH_TYPE
     VENDOR_SPECIFIC KERNEL_DISPATCH BARRIER_AND BARRIER_OR AGENT_DISPATCH).

Lemma accessorType_injective (a b : Accessor) :
  NoDup [VENDOR_SPECIFIC; KERNEL_DISPATCH; BARRIER_AND; BARRIER_OR; AGENT_DISPATCH] ->
  typeOf a = typeOf b -> a = b.
Proof.
  intros H. rewrite !NoDup_cons, !not_elem_of_cons in H.
  destruct H as ((?&?&?&?&_)&(?&?&?&_)&(?&?&_)&(?&_)&_).
  destruct a, b; simpl; intros E; try reflexivity; exfalso; congruence.
Qed.

(** X1. When the five packet-type constants are distinct, no packet is seen
    through two different typed accessors: of two different accessors, at
    least one returns [nullptr]. *)
Theorem typed_views_exclude_each_other (a b : Accessor) (P : AqlPacket) :
  NoDup [VENDOR_SPECIFIC; KERNEL_DISPATCH; BARRIER_AND; BARRIER_OR; AGENT_DISPATCH] ->
  a <> b ->
  accessor a P = nullptr \/ accessor b P = nullptr.
Proof.
  intros Hnd Hne.
  rewrite (access_unfold _ _ _ _ _ _ _ a), (access_unfold _ _ _ _ _ _ _ b).
  destruct (Z.eqb_spec (packetType P) (typeOf a)) as [Ea|]; [|left; reflexivity].
  destruct (Z.eqb_spec (packetType P) (typeOf b)) as [Eb|]; [|right; reflexivity].
  exfalso. apply Hne, (accessorType_injective a b Hnd). congruence.
Qed.

(** X2. For non-negative shift and width, the packet type is the header's
    bit field [(Header / 2^TYPE) mod 2^WIDTH]: it lies in [0, 2^WIDTH) and the
    header's bits above the field do not matter. *)
Theorem packet_type_is_header_field (P : AqlPacket) :
  0 <= HEADER_TYPE -> 0 <= WIDTH_TYPE ->
  packetType P = (Header P / 2 ^ HEADER_TYPE) mod 2 ^ WIDTH_TYPE
  /\ 0 <= packetType P < 2 ^ WIDTH_TYPE
  /\ forall k UD,
       packetType (mkAqlPacket (Header P + k * 2 ^ (HEADER_TYPE + WIDTH_TYPE)) UD)
       = packetType P.
Proof.
  intros HT HW.
  assert (Hfield : forall h UD,
            packetType (mkAqlPacket h UD)
            = (h / 2 ^ HEADER_TYPE) mod 2 ^ WIDTH_TYPE).
  { intros h UD. unfold getPacketType; simpl.
    rewrite Z.shiftr_div_pow2 by exact HT.
    rewrite Z.shiftl_1_l, Z.sub_1_r, <- Z.ones_equiv.
    apply Z.land_ones, HW. }
  assert (Hpos : 0 < 2 ^ WIDTH_TYPE) by (apply Z.pow_pos_nonneg; lia).
  assert (HposT : 0 < 2 ^ HEADER_TYPE) by (apply Z.pow_pos_nonneg; lia).
  destruct P as [h UD0]; simpl. rewrite !Hfield.
  split; [reflexivity|]. split; [apply Z.mod_pos_bound, Hpos|].
  intros k UD. rewrite Hfield, Z.pow_add_r by assumption.
  replace (h + k * (2 ^ HEADER_TYPE * 2 ^ WIDTH_TYPE))
    with (h + (k * 2 ^ WIDTH_TYPE) * 2 ^ HEADER_TYPE) by lia.
  rewrite Z.div_add by lia. apply Z.mod_add. lia.
Qed.

End AqlMore.

Lemma typed_views_exclude_each_other_witness :
  Aql.hsa_access Aql.KernelDispatch (Aql.mkAqlPacket 0x1502 []) = Aql.nullptr
  \/ Aql.hsa_access Aql.BarrierAnd (Aql.mkAqlPacket 0x1502 []) = Aql.nullptr.
Proof.
  apply (typed_views_exclude_each_other 0 8 0 2 3 5 4).
  - apply (bool_decide_unpack _). vm_compute. exact Logic.I.
  - discriminate.
Defined.

Lemma packet_type_is_header_field_witness :
  Aql.hsa_getPacketType (Aql.mkAqlPacket 0x1502 []) = (0x1502 / 2 ^ 0) mod 2 ^ 8
  /\ 0 <= Aql.hsa_getPacketType (Aql.mkAqlPacket 0x1502 []) < 2 ^ 8
  /\ forall k UD,
       Aql.hsa_getPacketType (Aql.mkAqlPacket (0x1502 + k * 2 ^ (0 + 8)) UD)
       = Aql.hsa_getPacketType (Aql.mkAqlPacket 0x1502 []).
Proof.
  apply (packet_type_is_header_field 0 8 (Aql.mkAqlPacket 0x1502 [])); lia.
Defined.

(** ** Function objects over symbols *)

Section SymbolFunctorFacts.
Import LCOSymbol SymbolFunctors.

Lemma hash_of_equal hash_combine A B :
  eqb A B = true -> hash hash_combine A = hash hash_combine B.
Proof.
  intros H. apply eqb_key in H. unfold key in H. injection H as H1 H2 H3 H4.
  unfold hash. rewrite H1, H2, H3, H4. reflexivity.
Qed.

(** X3. [LoadedCodeObjectSymbolEqualTo] is an equivalence on its operands:
    reflexive (also on null pointers), symmetric and transitive across its
    pointer and reference overloads; a pointer to a symbol behaves as a
    reference to it; and a null pointer equals only a null pointer. *)
Theorem EqualTo_is_an_equivalence :
  (forall a, EqualTo a a = true)
  /\ (forall a b, EqualTo a b = EqualTo b a)
  /\ (forall a b c, EqualTo a b = true -> EqualTo b c = true -> EqualTo a c = true)
  /\ (forall s x, EqualTo (ByPointer (Some s)) x = EqualTo (ByReference s) x)
  /\ (forall x, EqualTo (ByPointer None) x = true <-> x = ByPointer None).
Proof.
  split; [|split; [|split; [|split]]].
  - intros [[s|]|s]; simpl; try reflexivity; apply eqb_refl.
  - intros [[l|]|l] [[r|]|r]; simpl; try reflexivity; apply eqb_sym.
  - intros [[a|]|a] [[b|]|b] [[c|]|c]; simpl; intros H1 H2;
      try discriminate; try reflexivity; eapply eqb_trans; eassumption.
  - intros s [[r|]|r]; reflexivity.
  - intros [[r|]|r]; simpl; split; intros H; try discriminate; reflexivity.
Qed.

(** X4. Operands equal under [LoadedCodeObjectSymbolEqualTo] have the same
    [LoadedCodeObjectSymbolHash], whichever overloads take them: a lookup by
    pointer or by reference reaches the bucket of the stored key. *)
Theorem Hash_respects_EqualTo hash_combine hash_of_nullptr (a b : Operand) :
  EqualTo a b = true ->
  Hash hash_combine hash_of_nullptr a = Hash hash_combine hash_of_nullptr b.
Proof.
  destruct a as [[l|]|l], b as [[r|]|r]; simpl; intros H;
    try discriminate; try reflexivity; apply hash_of_equal, H.
Qed.

(** X5. The subclass constructors fix the kind: a symbol built as device
    function, variable or external symbol satisfies its own [classof] and no
    other; no symbol satisfies two of them; a device function carries no
    executable symbol; and symbols of different subclasses never compare
    equal, even over the same ELF symbol of the same code object. *)
Theorem subclasses_told_apart (LCO Elf : Z) (Sym : DataRefImpl)
    (h : Z) (oh : option Z) (S : LoadedCodeObjectSymbol) :
  let F := LoadedCodeObjectDeviceFunction LCO Elf Sym in
  let V := LoadedCodeObjectVariable LCO Elf Sym oh in
  let E := LoadedCodeObjectExternSymbol LCO Elf Sym h in
  (classofDeviceFunction F, classofVariable F, classofExternSymbol F)
    = (true, false, false)
  /\ (classofDeviceFunction V, classofVariable V, classofExternSymbol V)
     = (false, true, false)
  /\ (classofDeviceFunction E, classofVariable E, classofExternSymbol E)
     = (false, false, true)
  /\ ExecutableSymbol F = None
  /\ eqb F V = false /\ eqb F E = false /\ eqb V E = false
  /\ (Nat.b2n (classofDeviceFunction S) + Nat.b2n (classofVariable S)
      + Nat.b2n (classofExternSymbol S) <= 1)%nat.
Proof.
  intros F V E.
  assert (Hk : forall A B, Kind A <> Kind B -> eqb A B = false).
  { intros A B Hne. destruct (eqb A B) eqn:Eq; [|reflexivity].
    apply eqb_key in Eq. unfold key in Eq. exfalso. apply Hne. congruence. }
  repeat split; try reflexivity; try (apply Hk; discriminate).
  unfold classofDeviceFunction, classofVariable, classofExternSymbol, getType.
  destruct (Kind S); simpl; lia.
Qed.

End SymbolFunctorFacts.

Lemma Hash_respects_EqualTo_witness :
  let A := LCOSymbol.mkSymbol 7 100 (LCOSymbol.mkDataRefImpl 3 1)
             LCOSymbol.SK_KERNEL (Some 42) in
  let B := LCOSymbol.mkSymbol 7 200 (LCOSymbol.mkDataRefImpl 3 1)
             LCOSymbol.SK_KERNEL (Some 42) in
  SymbolFunctors.Hash (fun l => fold_right Z.add 0 l) 0
    (SymbolFunctors.ByPointer (Some A))
  = SymbolFunctors.Hash (fun l => fold_right Z.add 0 l) 0
      (SymbolFunctors.ByReference B).
Proof.
  intros A B.
  apply (Hash_respects_EqualTo (fun l => fold_right Z.add 0 l) 0
           (SymbolFunctors.ByPointer (Some A)) (SymbolFunctors.ByReference B)).
  reflexivity.
Defined.

(** ** Queries on loaded code objects *)

Section QueryFacts.
Import LCOSymbol HsaQueries.

Variable HSA_STATUS_SUCCESS : Z.

Local Abbreviation info := hsa_ven_amd_loader_loaded_code_object_get_info.

Lemma getInfoChecked_unfold T LCO Info Msg log :
  getInfoChecked HSA_STATUS_SUCCESS T LCO Info Msg log
  = (if (info T LCO Info).1 =? HSA_STATUS_SUCCESS
     then Ok (info T LCO Info).2
     else Err (HsaError Msg (Some (info T LCO Info).1)),
     log ++ [(LCO, Info)]).
Proof.
  unfold getInfoChecked, HSA_CALL_ERROR_CHECK.
  destruct ((info T LCO Info).1 =? HSA_STATUS_SUCCESS); reflexivity.
Qed.

(** X6. [LoadedCodeObjectExternSymbol::create] succeeds exactly when the
    executable and agent queries return success, the ELF symbol has a name
    and the executable has a symbol of that name on the agent; the result is
    then the external symbol of the given LCO and ELF symbol carrying that
    executable symbol.  When the lookup finds no symbol, the result is the
    generic error naming the symbol; and when the executable query fails, its
    status is returned in an [HsaError] and the agent is never queried. *)
Theorem createExternSymbol_outcomes (T : LoaderTable) (C : SymbolServices)
    (LCO Elf : Z) (Sym : DataRefImpl) (log : list (Z * LCOInfo)) :
  let create := createExternSymbol HSA_STATUS_SUCCESS T C LCO Elf Sym log in
  (forall S,
     create.1 = Ok S
     <-> exists Name h,
           (info T LCO INFO_EXECUTABLE).1 = HSA_STATUS_SUCCESS
           /\ (info T LCO INFO_AGENT).1 = HSA_STATUS_SUCCESS
           /\ getName C Sym = Ok Name
           /\ executableGetSymbolByName C (info T LCO INFO_EXECUTABLE).2 Name
                (info T LCO INFO_AGENT).2 = Ok (Some h)
           /\ S = mkSymbol LCO Elf Sym SK_EXTERNAL (Some h))
  /\ (forall Name,
        (info T LCO INFO_EXECUTABLE).1 = HSA_STATUS_SUCCESS ->
        (info T LCO INFO_AGENT).1 = HSA_STATUS_SUCCESS ->
        getName C Sym = Ok Name ->
        executableGetSymbolByName C (info T LCO INFO_EXECUTABLE).2 Name
          (info T LCO INFO_AGENT).2 = Ok None ->
        create.1
        = Err (GenericLuthierError
                 (mkMessage
                    "Failed to locate the external symbol {0} in its executable using its name"
                    (TextArg Name))))
  /\ ((info T LCO INFO_EXECUTABLE).1 <> HSA_STATUS_SUCCESS ->
      create
      = (Err (HsaError
                (mkMessage
                   "Failed to obtain the executable of HSA loaded code object {0:x}."
                   (HandleArg LCO))
                (Some (info T LCO INFO_EXECUTABLE).1)),
         log ++ [(LCO, INFO_EXECUTABLE)])).
Proof.
  intros create. unfold create, createExternSymbol,
    loadedCodeObjectGetExecutable, loadedCodeObjectGetAgent.
  rewrite !getInfoChecked_unfold.
  destruct (Z.eqb_spec (info T LCO INFO_EXECUTABLE).1 HSA_STATUS_SUCCESS)
    as [EE|EE].
  2:{ split; [|split].
      - intros S. split; [discriminate|].
        intros (Name & h & H & _). contradiction.
      - intros Name H. contradiction.
      - intros _. reflexivity. }
  cbv beta iota. rewrite ?getInfoChecked_unfold.
  destruct (Z.eqb_spec (info T LCO INFO_AGENT).1 HSA_STATUS_SUCCESS) as [EA|EA].
  2:{ split; [|split].
      - intros S. split; [discriminate|].
        intros (Name & h & _ & H & _). contradiction.
      - intros Name _ H. contradiction.
      - intros H. contradiction. }
  cbv beta iota.
  destruct (getName C Sym) as [Name|e] eqn:EN.
  2:{ split; [|split].
      - intros S. split; [discriminate|].
        intros (Name & h & _ & _ & H & _). discriminate.
      - intros Name _ _ H. discriminate.
      - intros H. contradiction. }
  destruct (executableGetSymbolByName C (info T LCO INFO_EXECUTABLE).2 Name
              (info T LCO INFO_AGENT).2) as [[h|]|e] eqn:ES; simpl.
  - split; [|split].
    + intros S. split.
      * intros H. injection H as <-. exists Name, h. auto.
      * intros (Name' & h' & _ & _ & HN & HS & ->).
        injection HN as <-. rewrite ES in HS. injection HS as <-. reflexivity.
    + intros Name' _ _ HN HS. injection HN as <-. rewrite ES in HS. discriminate.
    + intros H. contradiction.
  - split; [|split].
    + intros S. split; [discriminate|].
      intros (Name' & h' & _ & _ & HN & HS & _).
      injection HN as <-. rewrite ES in HS. discriminate.
    + intros Name' _ _ HN _. injection HN as <-. reflexivity.
    + intros H. contradiction.
  - split; [|split].
    + intros S. split; [discriminate|].
      intros (Name' & h' & _ & _ & HN & HS & _).
      injection HN as <-. rewrite ES in HS. discriminate.
    + intros Name' _ _ HN HS. injection HN as <-. rewrite ES in HS. discriminate.
    + intros H. contradiction.
Qed.

(** X7. [loadedCodeObjectGetLoadedMemory] returns the range (base, size)
    exactly when both the base and the size query return success; an error it
    returns is an [HsaError] whose status is not success; and the size is
    queried only after the base query succeeded, the log of calls growing by
    the base query alone otherwise. *)
Theorem loaded_memory_query (T : LoaderTable) (LCO : Z) (log : list (Z * LCOInfo)) :
  let q := loadedCodeObjectGetLoadedMemory HSA_STATUS_SUCCESS T LCO log in
  (forall R,
     q.1 = Ok R
     <-> (info T LCO INFO_LOAD_BASE).1 = HSA_STATUS_SUCCESS
         /\ (info T LCO INFO_LOAD_SIZE).1 = HSA_STATUS_SUCCESS
         /\ R = mkMemoryRange (info T LCO INFO_LOAD_BASE).2
                  (info T LCO INFO_LOAD_SIZE).2)
  /\ (forall e, q.1 = Err e ->
        exists Msg Status,
          e = HsaError Msg (Some Status) /\ Status <> HSA_STATUS_SUCCESS
          /\ Arg Msg = HandleArg LCO)
  /\ q.2 = (if (info T LCO INFO_LOAD_BASE).1 =? HSA_STATUS_SUCCESS
            then log ++ [(LCO, INFO_LOAD_BASE); (LCO, INFO_LOAD_SIZE)]
            else log ++ [(LCO, INFO_LOAD_BASE)]).
Proof.
  intros q. unfold q, loadedCodeObjectGetLoadedMemory.
  rewrite !getInfoChecked_unfold.
  destruct (Z.eqb_spec (info T LCO INFO_LOAD_BASE).1 HSA_STATUS_SUCCESS)
    as [EB|EB].
  - cbv beta iota. rewrite ?getInfoChecked_unfold.
    destruct (Z.eqb_spec (info T LCO INFO_LOAD_SIZE).1 HSA_STATUS_SUCCESS)
      as [ES|ES]; simpl.
    + split; [|split].
      * intros R. split.
        -- intros H. injection H as <-. auto.
        -- intros (_ & _ & ->). reflexivity.
      * intros e H. discriminate.
      * rewrite <- app_assoc. reflexivity.
    + split; [|split].
      * intros R. split; [discriminate|]. intros (_ & H & _). contradiction.
      * intros e H. injection H as <-. eexists _, _. split; [reflexivity|].
        split; [exact ES|reflexivity].
      * rewrite <- app_assoc. reflexivity.
  - simpl. split; [|split].
    + intros R. split; [discriminate|]. intros (H & _). contradiction.
    + intros e H. injection H as <-. eexists _, _. split; [reflexivity|].
      split; [exact EB|reflexivity].
    + reflexivity.
Qed.

(** X8. The function objects over [hsa_loaded_code_object_t] order handles
    consistently: [less] is a strict total order whose equivalence is
    [equal_to]; [less_equal], [greater], [greater_equal] and [not_equal_to]
    are its derived relations; [DenseMapInfo::isEqual] agrees with
    [equal_to]; and equal handles hash equally under both hash objects. *)
Theorem handle_comparators_consistent handleHashValue stdHash (a b c : Z) :
  less a a = false
  /\ (less a b = true -> less b c = true -> less a c = true)
  /\ (Nat.b2n (less a b) + Nat.b2n (equal_to a b) + Nat.b2n (less b a) = 1)%nat
  /\ less_equal a b = less a b || equal_to a b
  /\ greater a b = less b a
  /\ greater_equal a b = negb (less a b)
  /\ not_equal_to a b = negb (equal_to a b)
  /\ isEqual a b = equal_to a b
  /\ (equal_to a b = true ->
      getHashValue handleHashValue a = getHashValue handleHashValue b
      /\ std_hash stdHash a = std_hash stdHash b).
Proof.
  unfold less, less_equal, greater, greater_equal, equal_to, not_equal_to,
    isEqual, getHashValue, std_hash.
  rewrite Z.gtb_ltb, Z.geb_leb.
  destruct (Z.ltb_spec a b), (Z.ltb_spec b a), (Z.eqb_spec a b),
    (Z.leb_spec a b), (Z.leb_spec b a), (Z.ltb_spec b c), (Z.ltb_spec a c),
    (Z.ltb_spec a a); simpl; repeat split; try reflexivity; try lia;
    try (intros; subst; reflexivity); intros; try discriminate; lia.
Qed.

End QueryFacts.

(** ** Singletons *)

Section SingletonFacts.
Import Singleton.

Lemma run_app (a b : list Op) :
  forall s,
    run (a ++ b) s
    = match run a s with
      | FatalError msg => FatalError msg
      | Continues (s1, o1) =>
          match run b s1 with
          | FatalError msg => FatalError msg
          | Continues (s2, o2) => Continues (s2, o1 ++ o2)
          end
      end.
Proof.
  induction a as [|op a IH]; intros s; simpl.
  - destruct (run b s) as [[s2 o2]|msg]; reflexivity.
  - destruct op as [this| |]; simpl.
    + destruct s; [reflexivity|]. apply IH.
    + apply IH.
    + destruct s as [p|]; [|reflexivity]. rewrite IH. cbn [instance].
      destruct (run a (Some p)) as [[s1 o1]|msg]; [|reflexivity].
      destruct (run b s1) as [[s2 o2]|msg]; reflexivity.
Qed.

Lemma run_gets (p : Z) (n : nat) :
  run (repeat GetInstance n) (Some p) = Continues (Some p, repeat p n).
Proof.
  induction n as [|n IH]; simpl; [reflexivity|]. rewrite IH. reflexivity.
Qed.

(** X9. In a run that is not ended by a fatal error, a construction happens
    only while no instance exists, and every [instance()] call between that
    construction and the next construction or destruction returns the
    constructed object. *)
Theorem instance_returns_last_constructed (pre post : list Op) (p : Z) (n : nat)
    (s0 s : option Z) (outs : list Z) :
  run (pre ++ New p :: repeat GetInstance n ++ post) s0 = Continues (s, outs) ->
  exists before after,
    run pre s0 = Continues (None, before)
    /\ run post (Some p) = Continues (s, after)
    /\ outs = before ++ repeat p n ++ after.
Proof.
  rewrite run_app. destruct (run pre s0) as [[s1 o1]|msg]; [|discriminate].
  cbn [run]. destruct s1 as [q|]; cbn [construct]; [discriminate|].
  rewrite run_app, run_gets.
  destruct (run post (Some p)) as [[s2 o2]|msg]; [|discriminate].
  intros H. injection H as <- <-. exists o1, o2. auto.
Qed.

(** X10. A second construction with no destruction in between, and an
    [instance()] call right after a destruction, end the run with a fatal
    error, whatever happened before and whatever would follow. *)
Theorem singleton_misuse_is_fatal (pre post : list Op) (p q : Z) (n : nat)
    (s0 : option Z) :
  (exists msg,
     run (pre ++ New p :: repeat GetInstance n ++ New q :: post) s0
     = FatalError msg)
  /\ (exists msg, run (pre ++ Delete :: GetInstance :: post) s0 = FatalError msg).
Proof.
  split.
  - rewrite run_app. destruct (run pre s0) as [[s1 o1]|msg]; [|eauto].
    cbn [run]. destruct s1 as [r|]; cbn [construct]; [eauto|].
    rewrite run_app, run_gets. cbn [run construct]. eauto.
  - rewrite run_app. destruct (run pre s0) as [[s1 o1]|msg]; [|eauto].
    cbn [run destruct instance]. eauto.
Qed.

End SingletonFacts.

Lemma instance_returns_last_constructed_witness :
  Singleton.run [Singleton.New 1; Singleton.Delete; Singleton.New 2;
                 Singleton.GetInstance; Singleton.GetInstance; Singleton.Delete]
    None = Singleton.Continues (None, [2; 2]).
Proof.
  destruct (instance_returns_last_constructed
              [Singleton.New 1; Singleton.Delete] [Singleton.Delete] 2 2
              None None [2; 2] eq_refl) as (before & after & H1 & H2 & H3).
  reflexivity.
Defined.

(** ** Intrinsics *)

Section IntrinsicFacts.
Import Intrinsics.

Lemma registerIntrinsic_lookup Name P m Name' :
  registerIntrinsic Name P m !! Name'
  = match m !! Name' with
    | Some Q => Some Q
    | None => if bool_decide (Name = Name') then Some P else None
    end.
Proof.
  unfold registerIntrinsic. destruct (m !! Name) as [Q|] eqn:E.
  - destruct (m !! Name') as [Q'|] eqn:E'; [reflexivity|].
    case_bool_decide; [congruence|reflexivity].
  - rewrite lookup_insert. case_bool_decide as H.
    + subst. rewrite decide_True by reflexivity. rewrite E. reflexivity.
    + rewrite decide_False by exact H. destruct (m !! Name'); reflexivity.
Qed.

(** X11. After a sequence of [registerIntrinsic] calls, the processor on file
    for a name is the one that was there before, if any, and otherwise the
    one of the first call for that name: registering a name again does not
    replace its processor. *)
Theorem first_intrinsic_registration_wins
    (regs : list (string * IntrinsicProcessor))
    (m : gmap string IntrinsicProcessor) (Name : string) :
  registerIntrinsics regs m !! Name
  = match m !! Name with
    | Some P => Some P
    | None => snd <$> List.find (fun r => bool_decide (r.1 = Name)) regs
    end.
Proof.
  unfold registerIntrinsics. revert m.
  induction regs as [|[N P] regs IH]; intros m; simpl.
  - destruct (m !! Name); reflexivity.
  - rewrite IH, registerIntrinsic_lookup.
    destruct (m !! Name); [reflexivity|].
    case_bool_decide; reflexivity.
Qed.

Lemma last_cons {A} (x : A) (l : list A) (d : A) :
  List.last (x :: l) d = List.last l x.
Proof.
  revert x d. induction l as [|y l IH]; intros x d; [reflexivity|].
  change (List.last (x :: y :: l) d) with (List.last (y :: l) d).
  rewrite (IH y d), (IH y x). reflexivity.
Qed.

(** X12. Whatever other setters are called in between, an
    [IntrinsicIRLoweringInfo] lists its arguments in the order of the
    [addArgInfo] calls, holds the return-value info of the last
    [setReturnValueInfo] call (the one it had if there was none), and holds
    exactly the physical registers it had or that were requested; requests
    for distinct registers on a fresh info are counted one by one. *)
Theorem lowering_info_accumulates (ss : list Setter) (I : IntrinsicIRLoweringInfo) :
  let I' := applySetters ss I in
  getArgsInfo I' = getArgsInfo I ++ argsOf ss
  /\ getReturnValueInfo I' = List.last (returnInfosOf ss) (getReturnValueInfo I)
  /\ AccessedPhysicalRegisters I'
     = list_to_set (registersOf ss) ∪ AccessedPhysicalRegisters I
  /\ (NoDup (registersOf ss) ->
      accessed_phys_regs_size (applySetters ss defaultInfo)
      = length (registersOf ss)).
Proof.
  assert (H : forall ss I,
            Args (applySetters ss I) = Args I ++ argsOf ss
            /\ OutValue (applySetters ss I)
               = List.last (returnInfosOf ss) (OutValue I)
            /\ AccessedPhysicalRegisters (applySetters ss I)
               = list_to_set (registersOf ss) ∪ AccessedPhysicalRegisters I).
  { clear. induction ss as [|s ss IH]; intros I.
    - simpl. rewrite app_nil_r, union_empty_l_L. auto.
    - unfold applySetters in *. cbn [fold_left].
      destruct (IH (applySetter s I)) as (H1 & H2 & H3).
      rewrite H1, H2, H3.
      destruct s as [N|IA|V C|V C|D|R|KA]; simpl;
        rewrite ?last_cons, <- ?app_assoc; repeat split; try reflexivity.
      + destruct (returnInfosOf ss); [reflexivity|]. rewrite !last_cons.
        reflexivity.
      + rewrite (union_comm_L {[R]} (list_to_set (registersOf ss))).
        rewrite <- union_assoc_L. reflexivity. }
  intros I'. destruct (H ss I) as (H1 & H2 & H3).
  split; [exact H1|]. split; [exact H2|]. split; [exact H3|].
  intros Hnd. unfold accessed_phys_regs_size.
  destruct (H ss defaultInfo) as (_ & _ & ->). simpl.
  rewrite union_empty_r_L. apply size_list_to_set, Hnd.
Qed.

(** X13. The region markers of [KernelArgumentType] cut the enumerators
    into four blocks: every kernel argument is in exactly one of the
    always-in-SGPR region, the SGPR-or-hidden region, the hidden region, and
    the three work-item ids beyond [HIDDEN_END]; the values are the distinct
    numbers 0 to 34. *)
Theorem kernel_argument_regions_partition (k k' : KernelArgumentType) :
  (Nat.b2n (within ALWAYS_IN_SGPR_BEGIN ALWAYS_IN_SGPR_END k)
   + Nat.b2n (within EITHER_IN_SGPR_OR_HIDDEN_BEGIN EITHER_IN_SGPR_OR_HIDDEN_END k)
   + Nat.b2n (within HIDDEN_BEGIN HIDDEN_END k)
   + Nat.b2n (within WORK_ITEM_X WORK_ITEM_Z k) = 1)%nat
  /\ 0 <= value k <= 34
  /\ (value k = value k' -> k = k').
Proof.
  split; [destruct k; reflexivity|]. split; [destruct k; simpl; lia|].
  destruct k; destruct k'; simpl; intros H; try reflexivity; discriminate H.
Qed.

(** X14. [usesSVA] is false exactly for the default-constructed kernel
    preamble specs: any scratch-and-stack requirement, any requested stack
    byte or any requested kernel argument makes a kernel use the state value
    array. *)
Theorem usesSVA_false_iff_default (S : KernelPreambleSpecs) :
  usesSVA S = false <-> S = defaultKernelPreambleSpecs.
Proof.
  destruct S as [b n s]. unfold usesSVA, defaultKernelPreambleSpecs; simpl.
  rewrite !orb_false_iff, !negb_false_iff, Z.eqb_eq, bool_decide_eq_true.
  split.
  - intros [[-> ->] ->]. reflexivity.
  - intros H. injection H as -> -> ->. auto.
Qed.

End IntrinsicFacts.

(** ** More on the loader's maps *)

Section LoaderMore.
Import Loader Loader2.

Lemma dependents_register r L E :
  dependents (register r L) E
  = if OriginalExecutable r =? E
    then {[InstrumentedExecutable r]} ∪ dependents L E
    else dependents L E.
Proof.
  unfold dependents, register, insertInstrumentedKernelIntoMap.
  cbn [OriginalExecutablesWithKernelsInstrumented].
  destruct (Z.eqb_spec (OriginalExecutable r) E) as [<-|Hne].
  - rewrite lookup_insert_eq. simpl.
    destruct (OriginalExecutablesWithKernelsInstrumented L !! OriginalExecutable r)
      as [s|] eqn:Es.
    + rewrite Es. reflexivity.
    + rewrite lookup_insert_eq. reflexivity.
  - rewrite lookup_insert_ne by exact Hne.
    destruct (OriginalExecutablesWithKernelsInstrumented L !! OriginalExecutable r);
      [reflexivity|].
    rewrite lookup_insert_ne by exact Hne. reflexivity.
Qed.

(** X15. The dependency map only accumulates: after any sequence of
    registrations, the instrumented executables on file for an original
    executable are those that were on file before together with the
    instrumented executable of every registration made for it. *)
Theorem dependents_accumulate (rs : list Registration) (L : ToolExecutableLoader)
    (E : Z) :
  dependents (registerAll rs L) E
  = dependents L E
    ∪ list_to_set
        (map InstrumentedExecutable
           (List.filter (fun r => OriginalExecutable r =? E) rs)).
Proof.
  unfold registerAll. revert L.
  induction rs as [|r rs IH]; intros L; simpl.
  - rewrite union_empty_r_L. reflexivity.
  - rewrite IH, dependents_register.
    destruct (OriginalExecutable r =? E); simpl; [|reflexivity].
    rewrite (union_comm_L {[InstrumentedExecutable r]} (dependents L E)).
    rewrite <- union_assoc_L. reflexivity.
Qed.

(** X16. After any sequence of registrations, the pair [(K, P)] maps to the
    instrumented kernel it had before, if any, and otherwise to the one of the
    first registration for [(K, P)] in the sequence; it is unregistered only
    if no registration was for it. *)
Theorem first_preset_registration_wins (rs : list Registration)
    (L : ToolExecutableLoader) (K : Z) (P : string) :
  registered (registerAll rs L) K P
  = match registered L K P with
    | Some IK => Some IK
    | None => InstrumentedKernel <$> firstFor K P rs
    end.
Proof.
  unfold registerAll, firstFor. revert L.
  induction rs as [|r rs IH]; intros L; simpl.
  - destruct (registered L K P); reflexivity.
  - rewrite IH, registered_register.
    destruct (registered L K P); [reflexivity|].
    destruct (Z.eqb_spec (OriginalKernel r) K) as [EK|EK];
      case_bool_decide as EP; simpl.
    + rewrite decide_True by auto. reflexivity.
    + rewrite decide_False by (intros [_ ?]; contradiction). reflexivity.
    + rewrite decide_False by (intros [? _]; contradiction). reflexivity.
    + rewrite decide_False by (intros [? _]; contradiction). reflexivity.
Qed.

(** X17. A registration for a pair that already has an instrumented kernel
    is refused by the preset map, which stays as it is, but its instrumented
    executable is still put on file as a dependent of the original
    executable. *)
Theorem refused_registration_still_tracked (r : Registration)
    (L : ToolExecutableLoader) (IK : Z) :
  registered L (OriginalKernel r) (Preset r) = Some IK ->
  OriginalToInstrumentedKernelsMap (register r L)
  = OriginalToInstrumentedKernelsMap L
  /\ registered (register r L) (OriginalKernel r) (Preset r) = Some IK
  /\ InstrumentedExecutable r ∈ dependents (register r L) (OriginalExecutable r)
  /\ InstrumentedKernelMetadata (register r L) = InstrumentedKernelMetadata L.
Proof.
  intros H. split; [apply (register_present_unchanged r L IK H)|].
  split; [apply registered_register_Some, H|]. split; [|reflexivity].
  rewrite dependents_register, Z.eqb_refl.
  apply elem_of_union_l, elem_of_singleton. reflexivity.
Qed.

End LoaderMore.

Lemma refused_registration_still_tracked_witness :
  let r := Loader.mkRegistration 10 1 "p" 13 4 in
  Loader.registered (Loader.register r Scenario.loader) 1 "p" = Some 2
  /\ 13 ∈ Loader2.dependents (Loader.register r Scenario.loader) 10.
Proof.
  intros r.
  destruct (refused_registration_still_tracked r Scenario.loader 2)
    as (_ & H1 & H2 & _).
  - vm_compute. reflexivity.
  - split; [exact H1|exact H2].
Defined.

(** ** More on disassembly *)

Section DisassemblyMore.
Import LCOSymbol Lifter Lifter2.

Lemma loopRecords_layout Sym Base Is :
  forall As Prev,
    Forall (fun rec => InstrSymbol rec = Sym) (loopRecords Sym Base Is As Prev)
    /\ map Size (loopRecords Sym Base Is As Prev)
       = distances Prev (map LoadedDeviceAddress (loopRecords Sym Base Is As Prev))
    /\ (length Is = length As ->
        map Inst (loopRecords Sym Base Is As Prev) = Is
        /\ map LoadedDeviceAddress (loopRecords Sym Base Is As Prev)
           = map (fun A => wrap64 (A + Base)) As).
Proof.
  induction Is as [|Ins Is IH]; intros As Prev; simpl.
  - split; [constructor|]. split; [reflexivity|].
    intros H. destruct As; [auto|discriminate].
  - destruct As as [|A As]; simpl.
    + split; [constructor|]. split; [reflexivity|]. discriminate.
    + destruct (IH As (wrap64 (A + Base))) as (H1 & H2 & H3).
      split; [constructor; [reflexivity|exact H1]|].
      split; [rewrite H2; reflexivity|].
      intros Hlen. injection Hlen as Hlen. destruct (H3 Hlen) as [H4 H5].
      rewrite H4, H5. auto.
Qed.

(** What a first [disassemble] of [Sym] returns, read off the collaborators'
    answers. *)
Lemma disassemble_fresh_result env Sym st :
  find (MCDisassembledSymbols st) Sym = None ->
  match firstFailure env Sym with
  | Some e => (disassemble env Sym st).1 = Failure e
  | None =>
      exists Dev Is As,
        decoded env Sym = Some (Dev, Is, As)
        /\ (disassemble env Sym st).1
           = Success (mkInstrRef (NextAlloc st)
                        (loopRecords Sym (data Dev) Is As (data Dev)))
  end.
Proof.
  intros Hf.
  unfold disassemble, firstFailure, decoded, contains. rewrite Hf.
  simpl negb. cbv iota.
  unfold bind, returnOnError, modify, getLoadedCodeObject.
  destruct (getAssociatedObjectFile env (BackingLCO Sym)) as [ObjFile|e];
    [|reflexivity].
  destruct (getObjectFileTargetTuple env ObjFile) as [LLVMIsa|e]; [|reflexivity].
  destruct (isaFromLLVM env LLVMIsa) as [ISA|e]; [|reflexivity].
  destruct (getLoadedSymbolContents env Sym) as [Dev|e]; [|reflexivity].
  destruct (convertToHostEquivalent env Dev) as [Host|e]; [|reflexivity].
  destruct (disassembleCode env ISA (bytes Host)) as [[Is As]|e]; [|reflexivity].
  destruct (getTargetInfo env ISA) as [TI|e]; [|reflexivity].
  assert (Hclone : find (MCDisassembledSymbols st) (clone Sym) = None).
  { rewrite <- Hf. apply find_eqb_key. rewrite eqb_clone_l. apply eqb_refl. }
  assert (Hem : MCDisassembledSymbols (emplaceDisassembled Sym st)
                = MCDisassembledSymbols st ++ [(clone Sym, (NextAlloc st, []))]).
  { unfold emplaceDisassembled; simpl. apply emplace_fresh, Hclone. }
  assert (HK : eqb (clone Sym) Sym = true).
  { rewrite eqb_clone_l. apply eqb_refl. }
  destruct (disassembleLoop_spec env TI Sym (BackingLCO Sym) (data Dev) Is As
              (data Dev) (emplaceDisassembled Sym st) _ _ _ _ Hem Hf HK)
    as (G1 & _).
  simpl app in G1.
  exists Dev, Is, As. split; [reflexivity|].
  cbn [fst snd]. unfold findDisassembled. rewrite G1, find_app, Hf. simpl.
  rewrite HK. reflexivity.
Qed.

(** X18. The records a first, successful [disassemble] returns follow the
    decoder's answer: they all name the symbol passed in; each record's size
    is the distance of its address from the previous record's address (from
    the base address for the first); and, the decoder returning one address
    per instruction, the records carry the decoded instructions in order,
    each at base address plus its offset (modulo 2^64). *)
Theorem disassemble_record_layout env Sym st r st' :
  disassemble env Sym st = (Success r, st') ->
  contains (MCDisassembledSymbols st) Sym = false ->
  exists Dev Is As,
    decoded env Sym = Some (Dev, Is, As)
    /\ vector r = NextAlloc st
    /\ Forall (fun rec => InstrSymbol rec = Sym) (elems r)
    /\ map Size (elems r)
       = distances (data Dev) (map LoadedDeviceAddress (elems r))
    /\ (length Is = length As ->
        map Inst (elems r) = Is
        /\ map LoadedDeviceAddress (elems r)
           = map (fun A => wrap64 (A + data Dev)) As).
Proof.
  intros H Hc. apply contains_false in Hc.
  pose proof (disassemble_fresh_result env Sym st Hc) as G. rewrite H in G.
  destruct (firstFailure env Sym) as [e|]; [discriminate|].
  destruct G as (Dev & Is & As & Hd & G). injection G as ->.
  exists Dev, Is, As. split; [exact Hd|]. split; [reflexivity|].
  apply loopRecords_layout.
Qed.

(** X19. [disassemble] returns an error only for a symbol that is not cached,
    and then exactly when one of its collaborators fails: the error returned
    is the error of the first of them to fail, in the order of the calls. *)
Theorem disassemble_fails_iff_collaborator_fails env Sym st (e : Error) :
  (disassemble env Sym st).1 = Failure e
  <-> contains (MCDisassembledSymbols st) Sym = false
      /\ firstFailure env Sym = Some e.
Proof.
  destruct (find (MCDisassembledSymbols st) Sym) as [v|] eqn:Hf.
  - rewrite (disassemble_cached env Sym st v Hf). split; [discriminate|].
    intros [Hc _]. apply contains_false in Hc. congruence.
  - pose proof (disassemble_fresh_result env Sym st Hf) as G.
    destruct (firstFailure env Sym) as [e'|].
    + rewrite G. split.
      * intros H. injection H as ->. split; [apply contains_false, Hf|reflexivity].
      * intros [_ H]. injection H as ->. reflexivity.
    + destruct G as (Dev & Is & As & _ & ->). split; [discriminate|].
      intros [_ H]. discriminate.
Qed.

(** X20. Once [disassemble(S)] has succeeded, a [disassemble] of any symbol
    equal to [S] under [operator==] (a clone, or the same ELF symbol obtained
    again) is answered from the entry of [S]: the same reference, no change of
    the lifter's state, whatever the collaborators would do. *)
Theorem equal_symbol_hits_cache env Sym st r st' (Sym' : LoadedCodeObjectSymbol)
    env' :
  disassemble env Sym st = (Success r, st') ->
  eqb Sym Sym' = true ->
  disassemble env' Sym' st' = (Success r, st').
Proof.
  intros H He. apply disassemble_success_find in H.
  rewrite (find_eqb_key _ _ _ He) in H.
  rewrite (disassemble_cached env' Sym' st' _ H). destruct r; reflexivity.
Qed.

End DisassemblyMore.

Lemma disassemble_record_layout_witness :
  let first := Lifter.disassemble Scenario.services Scenario.K0 Lifter.emptyLifter in
  exists r,
    first = (Success r, first.2)
    /\ map Lifter.Size (Lifter.elems r)
       = Lifter2.distances 4096 (map Lifter.LoadedDeviceAddress (Lifter.elems r))
    /\ map Lifter.LoadedDeviceAddress (Lifter.elems r) = [4096; 4100; 4104].
Proof.
  intros first. eexists. split; [vm_compute; reflexivity|].
  destruct (disassemble_record_layout Scenario.services Scenario.K0
              Lifter.emptyLifter _ first.2 eq_refl eq_refl)
    as (Dev & Is & As & Hd & _ & _ & HS & HA).
  vm_compute in Hd. injection Hd as <- <- <-.
  split; [exact HS|]. apply HA. reflexivity.
Defined.

Lemma equal_symbol_hits_cache_witness :
  let first := Lifter.disassemble Scenario.services Scenario.K0 Lifter.emptyLifter in
  let K1 := LCOSymbol.mkSymbol 7 200 (LCOSymbol.mkDataRefImpl 3 1)
              LCOSymbol.SK_KERNEL (Some 42) in
  exists r,
    first = (Success r, first.2)
    /\ Lifter.disassemble Scenario.servicesWithoutTarget K1 first.2
       = (Success r, first.2).
Proof.
  intros first K1. eexists. split; [vm_compute; reflexivity|].
  apply (equal_symbol_hits_cache Scenario.services Scenario.K0 Lifter.emptyLifter).
  - vm_compute. reflexivity.
  - reflexivity.
Defined.
